(** * utf_convert: UTF-8 / UTF-16 / UTF-32 transcoding

    A shallow embedding of [src/utf_convert.cpp] and the properties of its
    conversion routines.

    Data representation.
    - A [uint8_t], and the byte held by a [char] of a [std::string], is an
      integer in [[0, 256)].  Wider unsigned integers are integers with the
      wrap-around of their width written out ([u8], [u16], [u32]).
    - A [char32_t] / [char16_t] element of a [std::u32string] /
      [std::u16string] is represented by its bytes in memory order, which is
      exactly the view the source takes of it ([const uint8_t *cur] with
      [cur[0..3]], and the unions [utf32_character] / [utf16_character] with
      [v[0..3]]).  Nothing therefore depends on the byte order of the host.
    - A routine that returns [bool] and fills [std::string &target] is a
      function from the initial content of [target] to the pair of the
      returned flag and the final content of [target].
    - The cursor [i] of a [for] loop over a buffer is represented by the part
      of the buffer that is still to be read: [buf[i + k]] is the [k]-th
      element of that remainder, and [i + k >= size] says that the remainder
      has at most [k] elements. *)

From Stdlib Require Import ZArith List Bool Lia.
Import ListNotations.
Local Open Scope Z_scope.

(** ** Fixed-width unsigned integers *)

Definition u8 (x : Z) : Z := x mod 2 ^ 8.
Definition u16 (x : Z) : Z := x mod 2 ^ 16.
Definition u32 (x : Z) : Z := x mod 2 ^ 32.

Definition is_u8 (b : Z) : Prop := 0 <= b < 256.

(** ** Data model *)

(** Modelled from the spec: the enumeration [utf_convert::UTF_ENDIAN] is
    declared in [utf_convert.hpp], which is not among the sources.  The spec
    (sections 3 and 6) gives it the two members big endian and little endian;
    the source names them [UTF_ENDIAN_BIG_ENDIAN] and
    [UTF_ENDIAN_LITTLE_ENDIAN].  [UTF_ENDIAN_UNRECOGNIZED] stands for any
    value of the enumeration's underlying type that is neither member, the
    case the [else] branches of the source answer. *)
Inductive UTF_ENDIAN : Type :=
| UTF_ENDIAN_BIG_ENDIAN
| UTF_ENDIAN_LITTLE_ENDIAN
| UTF_ENDIAN_UNRECOGNIZED.

Definition recognized (endian : UTF_ENDIAN) : Prop :=
  endian = UTF_ENDIAN_BIG_ENDIAN \/ endian = UTF_ENDIAN_LITTLE_ENDIAN.

(** [union utf32_character { char32_t ch; uint8_t v[4]; }]: the four bytes of
    one [char32_t], in memory order. *)
Record utf32_character : Type := mk_utf32 { v32_0 : Z; v32_1 : Z; v32_2 : Z; v32_3 : Z }.

(** [union utf16_character { char16_t ch; uint8_t v[2]; }] *)
Record utf16_character : Type := mk_utf16 { v16_0 : Z; v16_1 : Z }.

Definition wf_utf32 (c : utf32_character) : Prop :=
  is_u8 (v32_0 c) /\ is_u8 (v32_1 c) /\ is_u8 (v32_2 c) /\ is_u8 (v32_3 c).

Definition wf_utf16 (c : utf16_character) : Prop :=
  is_u8 (v16_0 c) /\ is_u8 (v16_1 c).

(** [std::string], [std::u16string], [std::u32string] *)
Definition u8string : Type := list Z.
Definition u16string : Type := list utf16_character.
Definition u32string : Type := list utf32_character.

(** [target.push_back(x)] on a [std::string]: the integer [x] is converted to
    [char], which keeps its low eight bits. *)
Definition push_back (target : u8string) (x : Z) : u8string := target ++ [u8 x].

(** [target.push_back(u32.ch)] on a [std::u32string]. *)
Definition push_back32 (target : u32string) (c : utf32_character) : u32string :=
  target ++ [c].

(** ** The encoders *)

(** [get_u16_endian_value].  The [switch] has no [default] and nothing follows
    it: for a value that is neither member control runs off the end of the
    function, which has no defined result ([None]). *)
Definition get_u16_endian_value (src : utf16_character) (endian : UTF_ENDIAN) : option Z :=
  match endian with
  | UTF_ENDIAN_BIG_ENDIAN =>
      Some (u16 (Z.lor (Z.shiftl (u16 (v16_0 src)) 8) (v16_1 src)))
  | UTF_ENDIAN_LITTLE_ENDIAN =>
      Some (u16 (Z.lor (Z.shiftl (u16 (v16_1 src)) 8) (v16_0 src)))
  | UTF_ENDIAN_UNRECOGNIZED => None
  end.

(** The byte-order assembly at the head of the loop body of
    [convert_u32str_to_u8str_without_bom] (lines 38-48); [None] is the
    [return false] of the unsupported byte order. *)
Definition get_u32_endian_value (cur : utf32_character) (endian : UTF_ENDIAN) : option Z :=
  match endian with
  | UTF_ENDIAN_BIG_ENDIAN =>
      Some (Z.lor (Z.lor (Z.lor (u32 (Z.shiftl (v32_0 cur) 24))
                                (u32 (Z.shiftl (v32_1 cur) 16)))
                         (u32 (Z.shiftl (v32_2 cur) 8)))
                  (v32_3 cur))
  | UTF_ENDIAN_LITTLE_ENDIAN =>
      Some (Z.lor (Z.lor (Z.lor (u32 (Z.shiftl (v32_3 cur) 24))
                                (u32 (Z.shiftl (v32_2 cur) 16)))
                         (u32 (Z.shiftl (v32_1 cur) 8)))
                  (v32_0 cur))
  | UTF_ENDIAN_UNRECOGNIZED => None
  end.

(** [convert_u32str_to_u8str_without_bom] *)
Fixpoint convert_u32str_to_u8str_without_bom
  (u32str : u32string) (endian : UTF_ENDIAN) (target : u8string) : bool * u8string :=
  match u32str with
  | [] => (true, target)
  | cur :: rest =>
      match get_u32_endian_value cur endian with
      | None => (false, target)
      | Some value =>
          if value <? 0x80 then
            convert_u32str_to_u8str_without_bom rest endian
              (push_back target value)
          else if value <? 0x0800 then
            let target := push_back target (Z.lor (Z.land (Z.shiftr value 6) 0x1f) 0xc0) in
            let target := push_back target (Z.lor (Z.land value 0x3f) 0x80) in
            convert_u32str_to_u8str_without_bom rest endian target
          else if value <? 0x010000 then
            let target := push_back target (Z.lor (Z.land (Z.shiftr value 12) 0x0f) 0xe0) in
            let target := push_back target (Z.lor (Z.land (Z.shiftr value 6) 0x3f) 0x80) in
            let target := push_back target (Z.lor (Z.land value 0x3f) 0x80) in
            convert_u32str_to_u8str_without_bom rest endian target
          else if value <? 0x110000 then
            let target := push_back target (Z.lor (Z.land (Z.shiftr value 18) 0x07) 0xf0) in
            let target := push_back target (Z.lor (Z.land (Z.shiftr value 12) 0x3f) 0x80) in
            let target := push_back target (Z.lor (Z.land (Z.shiftr value 6) 0x3f) 0x80) in
            let target := push_back target (Z.lor (Z.land value 0x3f) 0x80) in
            convert_u32str_to_u8str_without_bom rest endian target
          else (false, target)
      end
  end.

(** [convert_u16str_to_u8str_without_bom].  The result is [None] when the
    call has no defined result (see [get_u16_endian_value]). *)
Fixpoint convert_u16str_to_u8str_without_bom
  (u16str : u16string) (endian : UTF_ENDIAN) (target : u8string)
  : option (bool * u8string) :=
  match u16str with
  | [] => Some (true, target)
  | cur :: rest =>
      match get_u16_endian_value cur endian with
      | None => None
      | Some value =>
          if value <? 0x80 then
            convert_u16str_to_u8str_without_bom rest endian (push_back target value)
          else if value <? 0x0800 then
            let target := push_back target (Z.lor (Z.land (Z.shiftr value 6) 0x1f) 0xc0) in
            let target := push_back target (Z.lor (Z.land value 0x3f) 0x80) in
            convert_u16str_to_u8str_without_bom rest endian target
          else if (0xd800 <=? value) && (value <? 0xdc00) then
            match rest with
            | [] => Some (false, target)   (* i + 1 >= u16length *)
            | cur' :: rest' =>
                let high := value in
                match get_u16_endian_value cur' endian with
                | None => None
                | Some low =>
                    if low <? 0xdc00 then Some (false, target)
                    else
                      let code_point := u32 (high - 0xd800) in
                      let code_point := u32 (Z.shiftl code_point 10) in
                      let code_point := Z.lor code_point (u32 (low - 0xdc00)) in
                      let code_point := u32 (code_point + 0x10000) in
                      let target := push_back target (Z.lor (Z.shiftr code_point 18) 0xf0) in
                      let target := push_back target (Z.lor (Z.land (Z.shiftr code_point 12) 0x3f) 0x80) in
                      let target := push_back target (Z.lor (Z.land (Z.shiftr code_point 6) 0x3f) 0x80) in
                      let target := push_back target (Z.lor (Z.land code_point 0x3f) 0x80) in
                      convert_u16str_to_u8str_without_bom rest' endian target
                end
            end
          else
            let target := push_back target (Z.lor (Z.land (Z.shiftr value 12) 0x0f) 0xe0) in
            let target := push_back target (Z.lor (Z.land (Z.shiftr value 6) 0x3f) 0x80) in
            let target := push_back target (Z.lor (Z.land value 0x3f) 0x80) in
            convert_u16str_to_u8str_without_bom rest endian target
      end
  end.

(** ** Byte-order marks *)

(** [get_u32_str_bom] *)
Definition get_u32_str_bom (endian : UTF_ENDIAN) : utf32_character :=
  match endian with
  | UTF_ENDIAN_BIG_ENDIAN => mk_utf32 0x00 0x00 0xfe 0xff
  | UTF_ENDIAN_LITTLE_ENDIAN => mk_utf32 0xff 0xfe 0x00 0x00
  | UTF_ENDIAN_UNRECOGNIZED => mk_utf32 0 0 0 0     (* return 0 *)
  end.

Definition UTF_ENDIAN_eqb (a b : UTF_ENDIAN) : bool :=
  match a, b with
  | UTF_ENDIAN_BIG_ENDIAN, UTF_ENDIAN_BIG_ENDIAN => true
  | UTF_ENDIAN_LITTLE_ENDIAN, UTF_ENDIAN_LITTLE_ENDIAN => true
  | UTF_ENDIAN_UNRECOGNIZED, UTF_ENDIAN_UNRECOGNIZED => true
  | _, _ => false
  end.

(** [match_u32_bom] *)
Definition match_u32_bom (bom : utf32_character) (endian : UTF_ENDIAN) : bool :=
  if (v32_0 bom =? 0x00) && (v32_1 bom =? 0x00) && (v32_2 bom =? 0xfe) && (v32_3 bom =? 0xff)
  then UTF_ENDIAN_eqb endian UTF_ENDIAN_BIG_ENDIAN
  else if (v32_0 bom =? 0xff) && (v32_1 bom =? 0xfe) && (v32_2 bom =? 0x00) && (v32_3 bom =? 0x00)
  then UTF_ENDIAN_eqb endian UTF_ENDIAN_LITTLE_ENDIAN
  else false.

(** [match_u16_bom] *)
Definition match_u16_bom (bom : utf16_character) (endian : UTF_ENDIAN) : bool :=
  if (v16_0 bom =? 0xfe) && (v16_1 bom =? 0xff)
  then UTF_ENDIAN_eqb endian UTF_ENDIAN_BIG_ENDIAN
  else if (v16_0 bom =? 0xff) && (v16_1 bom =? 0xfe)
  then UTF_ENDIAN_eqb endian UTF_ENDIAN_LITTLE_ENDIAN
  else false.

(** ** The decoder *)

Section Decoder.

(** Whether plain [char] is a signed type is left to the implementation.
    The bytes of a [std::string] are kept as integers in [[0, 256)];
    reading [u8str[i]] inside an expression promotes the [char] to [int],
    which gives a negative number for a byte above [0x7f] where [char] is
    signed. *)
Variable char_is_signed : bool.

Definition char_value (c : Z) : Z :=
  if char_is_signed && (0x80 <=? c) then c - 0x100 else c.

(** [convert_u8str_to_u32str_little_endian] *)
Fixpoint convert_u8str_to_u32str_little_endian
  (u8str : u8string) (target : u32string) : bool * u32string :=
  match u8str with
  | [] => (true, target)
  | c0 :: r1 =>
      let s0 := char_value c0 in
      if Z.land s0 0xf0 =? 0xf0 then
        match r1 with
        | c1 :: c2 :: c3 :: rest =>
            let s1 := char_value c1 in
            let s2 := char_value c2 in
            let s3 := char_value c3 in
            let v3 := 0 in
            let v2 := u8 (Z.lor (Z.shiftl (Z.land s0 0x07) 2) (Z.shiftr (Z.land s1 0x30) 4)) in
            let v1 := u8 (Z.lor (Z.shiftl (Z.land s1 0x0f) 4) (Z.shiftr (Z.land s2 0x3c) 2)) in
            let v0 := u8 (Z.lor (Z.shiftl (Z.land s2 0x03) 6) (Z.land s3 0x3f)) in
            convert_u8str_to_u32str_little_endian rest
              (push_back32 target (mk_utf32 v0 v1 v2 v3))
        | _ => (false, target)           (* i + 3 >= u8str.size() *)
        end
      else if Z.land s0 0xe0 =? 0xe0 then
        match r1 with
        | c1 :: c2 :: rest =>
            let s1 := char_value c1 in
            let s2 := char_value c2 in
            let v3 := 0 in
            let v2 := 0 in
            let v1 := u8 (Z.lor (Z.shiftl (Z.land s0 0x0f) 4) (Z.shiftr (Z.land s1 0x3c) 2)) in
            let v0 := u8 (Z.lor (Z.shiftl (Z.land s1 0x03) 6) (Z.land s2 0x3f)) in
            convert_u8str_to_u32str_little_endian rest
              (push_back32 target (mk_utf32 v0 v1 v2 v3))
        | _ => (false, target)           (* i + 2 >= u8str.size() *)
        end
      else if Z.land s0 0xc0 =? 0xc0 then
        match r1 with
        | c1 :: rest =>
            let s1 := char_value c1 in
            let v3 := 0 in
            let v2 := 0 in
            let v1 := u8 (Z.shiftr (Z.land s0 0x1c) 2) in
            let v0 := u8 (Z.lor (Z.shiftl (Z.land s0 0x03) 6) (Z.land s1 0x3f)) in
            convert_u8str_to_u32str_little_endian rest
              (push_back32 target (mk_utf32 v0 v1 v2 v3))
        | _ => (false, target)           (* i + 1 >= u8str.size() *)
        end
      else if Z.land s0 0x7f =? s0 then
        convert_u8str_to_u32str_little_endian r1
          (push_back32 target (mk_utf32 (u8 s0) 0 0 0))
      else (false, target)
  end.

(** [convert_u8str_to_u32str_big_endian] *)
Fixpoint convert_u8str_to_u32str_big_endian
  (u8str : u8string) (target : u32string) : bool * u32string :=
  match u8str with
  | [] => (true, target)
  | c0 :: r1 =>
      let s0 := char_value c0 in
      if Z.land s0 0xf0 =? 0xf0 then
        match r1 with
        | c1 :: c2 :: c3 :: rest =>
            let s1 := char_value c1 in
            let s2 := char_value c2 in
            let s3 := char_value c3 in
            let v0 := 0 in
            let v1 := u8 (Z.lor (Z.shiftl (Z.land s0 0x07) 2) (Z.shiftr (Z.land s1 0x30) 4)) in
            let v2 := u8 (Z.lor (Z.shiftl (Z.land s1 0x0f) 4) (Z.shiftr (Z.land s2 0x3c) 2)) in
            let v3 := u8 (Z.lor (Z.shiftl (Z.land s2 0x03) 6) (Z.land s3 0x3f)) in
            convert_u8str_to_u32str_big_endian rest
              (push_back32 target (mk_utf32 v0 v1 v2 v3))
        | _ => (false, target)
        end
      else if Z.land s0 0xe0 =? 0xe0 then
        match r1 with
        | c1 :: c2 :: rest =>
            let s1 := char_value c1 in
            let s2 := char_value c2 in
            let v0 := 0 in
            let v1 := 0 in
            let v2 := u8 (Z.lor (Z.shiftl (Z.land s0 0x0f) 4) (Z.shiftr (Z.land s1 0x3c) 2)) in
            let v3 := u8 (Z.lor (Z.shiftl (Z.land s1 0x03) 6) (Z.land s2 0x3f)) in
            convert_u8str_to_u32str_big_endian rest
              (push_back32 target (mk_utf32 v0 v1 v2 v3))
        | _ => (false, target)
        end
      else if Z.land s0 0xc0 =? 0xc0 then
        match r1 with
        | c1 :: rest =>
            let s1 := char_value c1 in
            let v0 := 0 in
            let v1 := 0 in
            let v2 := u8 (Z.shiftr (Z.land s0 0x1c) 2) in
            let v3 := u8 (Z.lor (Z.shiftl (Z.land s0 0x03) 6) (Z.land s1 0x3f)) in
            convert_u8str_to_u32str_big_endian rest
              (push_back32 target (mk_utf32 v0 v1 v2 v3))
        | _ => (false, target)
        end
      else if Z.land s0 0x7f =? s0 then
        convert_u8str_to_u32str_big_endian r1
          (push_back32 target (mk_utf32 0 0 0 (u8 s0)))
      else (false, target)
  end.

(** [utf_convert::to_u32string] *)
Definition to_u32string
  (u8str : u8string) (target : u32string) (target_endian : UTF_ENDIAN) (add_bom : bool)
  : bool * u32string :=
  let target := [] in                                              (* target.clear() *)
  let target := if add_bom then push_back32 target (get_u32_str_bom target_endian)
                else target in
  if UTF_ENDIAN_eqb target_endian UTF_ENDIAN_LITTLE_ENDIAN
  then convert_u8str_to_u32str_little_endian u8str target
  else convert_u8str_to_u32str_big_endian u8str target.

End Decoder.

(** ** Entry points of the encoders

    The four overloads of [utf_convert::to_u8string] are told apart by a
    suffix: the code unit of the input, and [_with_bom] for the overloads
    that take no byte order and read it from the buffer. *)

(** [utf_convert::to_u8string(const std::u32string &, UTF_ENDIAN, std::string &)] *)
Definition to_u8string_u32
  (u32str_without_bom : u32string) (u32str_endian : UTF_ENDIAN) (target : u8string)
  : bool * u8string :=
  let target := [] in
  convert_u32str_to_u8str_without_bom u32str_without_bom u32str_endian target.

(** [utf_convert::to_u8string(const std::u32string &, std::string &)] *)
Definition to_u8string_u32_with_bom
  (u32str_with_bom : u32string) (target : u8string) : bool * u8string :=
  match u32str_with_bom with
  | [] => (false, target)
  | first :: after_bom =>             (* u32str_with_bom[0]; u32str_ptr + 4, size() - 1 *)
      let target := [] in
      if match_u32_bom first UTF_ENDIAN_BIG_ENDIAN then
        convert_u32str_to_u8str_without_bom after_bom UTF_ENDIAN_BIG_ENDIAN target
      else if match_u32_bom first UTF_ENDIAN_LITTLE_ENDIAN then
        convert_u32str_to_u8str_without_bom after_bom UTF_ENDIAN_LITTLE_ENDIAN target
      else (false, target)
  end.

(** [utf_convert::to_u8string(const std::u16string &, UTF_ENDIAN, std::string &)] *)
Definition to_u8string_u16
  (u16str : u16string) (u16str_endian : UTF_ENDIAN) (target : u8string)
  : option (bool * u8string) :=
  let target := [] in
  convert_u16str_to_u8str_without_bom u16str u16str_endian target.

(** [str[pos]] of a [std::u16string]: for [pos == size()] it is the
    terminating [char16_t()], whose two bytes are zero. *)
Definition u16string_at (str : u16string) (pos : nat) : utf16_character :=
  nth pos str (mk_utf16 0 0).

(** [utf_convert::to_u8string(const std::u16string &, std::string &)].  The
    unit handed to [match_u16_bom] is [u16str_with_bom[1]]; the data pointer
    is advanced by two bytes, that is by one unit, and the length handed on is
    [size() - 1]. *)
Definition to_u8string_u16_with_bom
  (u16str_with_bom : u16string) (target : u8string) : option (bool * u8string) :=
  match u16str_with_bom with
  | [] => Some (false, target)
  | _ :: after_first =>
      let target := [] in
      if match_u16_bom (u16string_at u16str_with_bom 1) UTF_ENDIAN_BIG_ENDIAN then
        convert_u16str_to_u8str_without_bom after_first UTF_ENDIAN_BIG_ENDIAN target
      else if match_u16_bom (u16string_at u16str_with_bom 1) UTF_ENDIAN_LITTLE_ENDIAN then
        convert_u16str_to_u8str_without_bom after_first UTF_ENDIAN_LITTLE_ENDIAN target
      else Some (false, target)
  end.

(** * Specification-level notions *)

(** The 32-bit value [x] laid out in memory in the given byte order. *)
Definition u32_layout (endian : UTF_ENDIAN) (x : Z) : utf32_character :=
  match endian with
  | UTF_ENDIAN_LITTLE_ENDIAN =>
      mk_utf32 (x mod 256) (x / 2 ^ 8 mod 256) (x / 2 ^ 16 mod 256) (x / 2 ^ 24 mod 256)
  | _ =>
      mk_utf32 (x / 2 ^ 24 mod 256) (x / 2 ^ 16 mod 256) (x / 2 ^ 8 mod 256) (x mod 256)
  end.

(** The 16-bit value [x] laid out in memory in the given byte order. *)
Definition u16_layout (endian : UTF_ENDIAN) (x : Z) : utf16_character :=
  match endian with
  | UTF_ENDIAN_LITTLE_ENDIAN => mk_utf16 (x mod 256) (x / 2 ^ 8 mod 256)
  | _ => mk_utf16 (x / 2 ^ 8 mod 256) (x mod 256)
  end.

(** The value of a code unit whose bytes are read in the given byte order. *)
Definition u32_value (endian : UTF_ENDIAN) (cur : utf32_character) : Z :=
  match endian with
  | UTF_ENDIAN_LITTLE_ENDIAN =>
      v32_3 cur * 2 ^ 24 + v32_2 cur * 2 ^ 16 + v32_1 cur * 2 ^ 8 + v32_0 cur
  | _ =>
      v32_0 cur * 2 ^ 24 + v32_1 cur * 2 ^ 16 + v32_2 cur * 2 ^ 8 + v32_3 cur
  end.

Definition u16_value (endian : UTF_ENDIAN) (src : utf16_character) : Z :=
  match endian with
  | UTF_ENDIAN_LITTLE_ENDIAN => v16_1 src * 2 ^ 8 + v16_0 src
  | _ => v16_0 src * 2 ^ 8 + v16_1 src
  end.

(** The UTF-8 form of a value below [0x200000], as the Unicode standard
    lays it out: a lead byte [0xxxxxxx], [110xxxxx], [1110xxxx] or
    [11110xxx] and continuation bytes [10xxxxxx], the payload bits [x] being
    the bits of the value, most significant first. *)
Definition utf8_bytes (v : Z) : list Z :=
  if v <? 2 ^ 7 then [v]
  else if v <? 2 ^ 11 then [0xC0 + v / 2 ^ 6; 0x80 + v mod 2 ^ 6]
  else if v <? 2 ^ 16 then
    [0xE0 + v / 2 ^ 12; 0x80 + v / 2 ^ 6 mod 2 ^ 6; 0x80 + v mod 2 ^ 6]
  else
    [0xF0 + v / 2 ^ 18; 0x80 + v / 2 ^ 12 mod 2 ^ 6; 0x80 + v / 2 ^ 6 mod 2 ^ 6;
     0x80 + v mod 2 ^ 6].

(** The number of payload bits of a UTF-8 sequence of [n] bytes. *)
Definition payload_bits (n : nat) : Z :=
  match n with
  | 1%nat => 7
  | 2%nat => 11
  | 3%nat => 16
  | 4%nat => 21
  | _ => 0
  end.

(** A Unicode scalar value: a code point that is not a surrogate. *)
Definition unicode_scalar (cp : Z) : Prop :=
  0 <= cp <= 0xD7FF \/ 0xE000 <= cp <= 0x10FFFF.

(** Checking a property on every integer of an initial segment. *)
Fixpoint range_forallb (f : Z -> bool) (n : nat) : bool :=
  match n with
  | O => true
  | S k => f (Z.of_nat k) && range_forallb f k
  end.


(** The number of bytes of the sequence that a byte opens when it is read as
    a lead byte: the three masks tried most specific first, then the plain
    seven-bit byte; [None] for a byte that opens no sequence. *)
Definition sequence_length (c : Z) : option nat :=
  if Z.land c 0xF0 =? 0xF0 then Some 4%nat
  else if Z.land c 0xE0 =? 0xE0 then Some 3%nat
  else if Z.land c 0xC0 =? 0xC0 then Some 2%nat
  else if Z.land c 0x80 =? 0 then Some 1%nat
  else None.

(** A byte with its high bit set that matches none of the three lead-byte
    masks. *)
Definition stray_lead (c : Z) : Prop :=
  Z.land c 0x80 <> 0 /\ Z.land c 0xF0 <> 0xF0 /\ Z.land c 0xE0 <> 0xE0 /\
  Z.land c 0xC0 <> 0xC0.

(** The byte [c], read as a lead byte, announces more bytes than the [rest]
    of the input holds. *)
Definition truncated_sequence (c : Z) (rest : list Z) : Prop :=
  exists n, sequence_length c = Some n /\ (length rest < n - 1)%nat.

(** A run of whole sequences: each one is a lead byte followed by as many
    bytes as the lead byte announces, whatever those bytes are. *)
Inductive complete_sequences : list Z -> Prop :=
| complete_nil : complete_sequences []
| complete_cons (c : Z) (n : nat) (tail more : list Z) :
    sequence_length c = Some n ->
    length tail = (n - 1)%nat ->
    complete_sequences more ->
    complete_sequences (c :: tail ++ more).

(** The payload bits of one sequence, the lead byte giving the most
    significant ones; the two marker bits of the other bytes are dropped
    unseen. *)
Definition utf8_payload (seq : list Z) : Z :=
  match seq with
  | [c0] => c0
  | [c0; c1] => c0 mod 2 ^ 5 * 2 ^ 6 + c1 mod 2 ^ 6
  | [c0; c1; c2] => c0 mod 2 ^ 4 * 2 ^ 12 + c1 mod 2 ^ 6 * 2 ^ 6 + c2 mod 2 ^ 6
  | [c0; c1; c2; c3] =>
      c0 mod 2 ^ 3 * 2 ^ 18 + c1 mod 2 ^ 6 * 2 ^ 12 + c2 mod 2 ^ 6 * 2 ^ 6 + c3 mod 2 ^ 6
  | _ => 0
  end.

(** The loop [utf_convert::to_u32string] hands the input to. *)
Definition decoder_for (char_is_signed : bool) (target_endian : UTF_ENDIAN)
  : u8string -> u32string -> bool * u32string :=
  if UTF_ENDIAN_eqb target_endian UTF_ENDIAN_LITTLE_ENDIAN
  then convert_u8str_to_u32str_little_endian char_is_signed
  else convert_u8str_to_u32str_big_endian char_is_signed.

Definition option_nat_eqb (a b : option nat) : bool :=
  match a, b with
  | Some x, Some y => Nat.eqb x y
  | None, None => true
  | _, _ => false
  end.

(** The code point the UTF-16 encoder assembles from a lead unit [high] and
    the unit [low] that follows it (lines 123-126). *)
Definition assembled_code_point (high low : Z) : Z :=
  Z.lor ((high - 0xd800) * 2 ^ 10) (low - 0xdc00) + 0x10000.

(** The bytes [bytes] are the UTF-8 form of [v] in the bit patterns of the
    standard: [0xxxxxxx], or [110xxxxx 10xxxxxx], or
    [1110xxxx 10xxxxxx 10xxxxxx], or [11110xxx 10xxxxxx 10xxxxxx 10xxxxxx],
    the bits [x] being those of [v]. *)
Definition standard_form (v : Z) (bytes : list Z) : Prop :=
  match bytes with
  | [b0] => b0 / 2 ^ 7 = 0 /\ v = b0
  | [b0; b1] =>
      b0 / 2 ^ 5 = 6 /\ b1 / 2 ^ 6 = 2 /\
      v = b0 mod 2 ^ 5 * 2 ^ 6 + b1 mod 2 ^ 6
  | [b0; b1; b2] =>
      b0 / 2 ^ 4 = 14 /\ b1 / 2 ^ 6 = 2 /\ b2 / 2 ^ 6 = 2 /\
      v = b0 mod 2 ^ 4 * 2 ^ 12 + b1 mod 2 ^ 6 * 2 ^ 6 + b2 mod 2 ^ 6
  | [b0; b1; b2; b3] =>
      b0 / 2 ^ 3 = 30 /\ b1 / 2 ^ 6 = 2 /\ b2 / 2 ^ 6 = 2 /\ b3 / 2 ^ 6 = 2 /\
      v = b0 mod 2 ^ 3 * 2 ^ 18 + b1 mod 2 ^ 6 * 2 ^ 12 + b2 mod 2 ^ 6 * 2 ^ 6
          + b3 mod 2 ^ 6
  | _ => False
  end.

(** ** Proof automation *)

(** Brings a target built by successive [push_back]s to the form
    [target ++ [b0; b1; ...]]. *)
Ltac flatten_pushes :=
  unfold push_back; rewrite <- ?app_assoc; cbn [app].

(** Equations between a byte assembled by the decoder and a byte of the
    layout of the payload. *)
Ltac layout_bytes :=
  unfold u8, utf8_payload, is_u8 in *; Z.div_mod_to_equations; lia.

(** The UTF-16 form of a code point, as the Unicode standard lays it out: the
    code point itself below [0x10000], and above it the lead and trail
    surrogates that carry the high and low ten bits of [cp - 0x10000]. *)
Definition utf16_units (cp : Z) : list Z :=
  if cp <? 0x10000 then [cp]
  else [0xD800 + (cp - 0x10000) / 2 ^ 10; 0xDC00 + (cp - 0x10000) mod 2 ^ 10].
(** * Auxiliary facts *)

(** ** Exhaustive checks *)

Lemma range_forallb_spec (f : Z -> bool) (n : nat) :
  range_forallb f n = true -> forall x, 0 <= x < Z.of_nat n -> f x = true.
Proof.
  induction n as [|k IH]; intros Hall x Hx.
  - simpl in Hx. lia.
  - cbn [range_forallb] in Hall. apply andb_true_iff in Hall as [Hk Hrest].
    destruct (Z.eq_dec x (Z.of_nat k)) as [->|Hne]; [assumption|].
    apply IH; [assumption | lia].
Qed.

Lemma forall_u8 (f : Z -> bool) :
  range_forallb f 256 = true -> forall c, is_u8 c -> f c = true.
Proof.
  intros Hall c Hc. apply (range_forallb_spec f 256 Hall). exact Hc.
Qed.

(** ** Bit operations as arithmetic *)

Lemma u8_small x : 0 <= x < 256 -> u8 x = x.
Proof. intros H. unfold u8. apply Z.mod_small. exact H. Qed.

Lemma u16_small x : 0 <= x < 2 ^ 16 -> u16 x = x.
Proof. intros H. unfold u16. apply Z.mod_small. exact H. Qed.

Lemma u32_small x : 0 <= x < 2 ^ 32 -> u32 x = x.
Proof. intros H. unfold u32. apply Z.mod_small. exact H. Qed.

Lemma land_high_low hi lo k :
  0 <= k -> 0 <= lo < 2 ^ k -> Z.land (hi * 2 ^ k) lo = 0.
Proof.
  intros Hk Hlo. apply Z.bits_inj'. intros n Hn.
  rewrite Z.land_spec, Z.bits_0.
  destruct (Z.lt_ge_cases n k) as [Hlt|Hge].
  - rewrite Z.mul_pow2_bits_low by lia. reflexivity.
  - rewrite <- (Z.mod_small lo (2 ^ k)) by lia.
    rewrite Z.mod_pow2_bits_high by lia. apply andb_false_r.
Qed.

Lemma lor_high_low hi lo k :
  0 <= k -> 0 <= lo < 2 ^ k -> Z.lor (hi * 2 ^ k) lo = hi * 2 ^ k + lo.
Proof.
  intros Hk Hlo.
  rewrite <- Z.lxor_lor by (apply land_high_low; assumption).
  symmetry. apply Z.add_nocarry_lxor. apply land_high_low; assumption.
Qed.

Lemma lor_low_high hi lo k :
  0 <= k -> 0 <= lo < 2 ^ k -> Z.lor lo (hi * 2 ^ k) = hi * 2 ^ k + lo.
Proof. intros. rewrite Z.lor_comm. apply lor_high_low; assumption. Qed.

Lemma land_mask x k : 0 <= k -> Z.land x (2 ^ k - 1) = x mod 2 ^ k.
Proof.
  intros Hk. rewrite <- Z.land_ones by assumption.
  rewrite Z.ones_equiv, Z.sub_1_r. reflexivity.
Qed.

Lemma pow2_pos k : 0 <= k -> 0 < 2 ^ k.
Proof. intros. apply Z.pow_pos_nonneg; lia. Qed.

(** The bytes the encoders push, in arithmetic form. *)

Lemma enc_cont v k :
  0 <= k ->
  u8 (Z.lor (Z.land (Z.shiftr v k) 0x3f) 0x80) = 0x80 + v / 2 ^ k mod 2 ^ 6.
Proof.
  intros Hk. rewrite Z.shiftr_div_pow2 by assumption.
  change 0x3f with (2 ^ 6 - 1). rewrite land_mask by lia.
  pose proof (Z.mod_pos_bound (v / 2 ^ k) (2 ^ 6) eq_refl) as Hb.
  change 0x80 with (2 * 2 ^ 6) at 1.
  rewrite lor_low_high by lia. rewrite u8_small; lia.
Qed.

Lemma enc_cont0 v :
  u8 (Z.lor (Z.land v 0x3f) 0x80) = 0x80 + v mod 2 ^ 6.
Proof.
  change 0x3f with (2 ^ 6 - 1). rewrite land_mask by lia.
  pose proof (Z.mod_pos_bound v (2 ^ 6) eq_refl) as Hb.
  change 0x80 with (2 * 2 ^ 6) at 1.
  rewrite lor_low_high by lia. rewrite u8_small; lia.
Qed.

Lemma enc_lead2 v :
  0 <= v < 2 ^ 11 ->
  u8 (Z.lor (Z.land (Z.shiftr v 6) 0x1f) 0xc0) = 0xC0 + v / 2 ^ 6.
Proof.
  intros Hv. rewrite Z.shiftr_div_pow2 by lia.
  change 0x1f with (2 ^ 5 - 1). rewrite land_mask by lia.
  assert (0 <= v / 2 ^ 6 < 2 ^ 5) as Hq
    by (split; [apply Z.div_pos; lia | apply Z.div_lt_upper_bound; lia]).
  rewrite Z.mod_small by assumption.
  change 0xc0 with (6 * 2 ^ 5) at 1.
  rewrite lor_low_high by lia. rewrite u8_small; lia.
Qed.

Lemma enc_lead3 v :
  0 <= v < 2 ^ 16 ->
  u8 (Z.lor (Z.land (Z.shiftr v 12) 0x0f) 0xe0) = 0xE0 + v / 2 ^ 12.
Proof.
  intros Hv. rewrite Z.shiftr_div_pow2 by lia.
  change 0x0f with (2 ^ 4 - 1). rewrite land_mask by lia.
  assert (0 <= v / 2 ^ 12 < 2 ^ 4) as Hq
    by (split; [apply Z.div_pos; lia | apply Z.div_lt_upper_bound; lia]).
  rewrite Z.mod_small by assumption.
  change 0xe0 with (14 * 2 ^ 4) at 1.
  rewrite lor_low_high by lia. rewrite u8_small; lia.
Qed.

Lemma enc_lead4 v :
  0 <= v < 2 ^ 21 ->
  u8 (Z.lor (Z.land (Z.shiftr v 18) 0x07) 0xf0) = 0xF0 + v / 2 ^ 18.
Proof.
  intros Hv. rewrite Z.shiftr_div_pow2 by lia.
  change 0x07 with (2 ^ 3 - 1). rewrite land_mask by lia.
  assert (0 <= v / 2 ^ 18 < 2 ^ 3) as Hq
    by (split; [apply Z.div_pos; lia | apply Z.div_lt_upper_bound; lia]).
  rewrite Z.mod_small by assumption.
  change 0xf0 with (30 * 2 ^ 3) at 1.
  rewrite lor_low_high by lia. rewrite u8_small; lia.
Qed.

(** The lead byte of a surrogate pair is pushed without a mask. *)
Lemma enc_lead4_nomask v :
  0 <= v < 2 ^ 21 ->
  u8 (Z.lor (Z.shiftr v 18) 0xf0) = 0xF0 + v / 2 ^ 18.
Proof.
  intros Hv. rewrite Z.shiftr_div_pow2 by lia.
  assert (0 <= v / 2 ^ 18 < 2 ^ 3) as Hq
    by (split; [apply Z.div_pos; lia | apply Z.div_lt_upper_bound; lia]).
  change 0xf0 with (30 * 2 ^ 3) at 1.
  rewrite lor_low_high by lia. rewrite u8_small; lia.
Qed.

(** ** Reading a code unit in a byte order *)

Lemma get_u32_endian_value_spec cur endian :
  recognized endian -> wf_utf32 cur ->
  get_u32_endian_value cur endian = Some (u32_value endian cur).
Proof.
  intros Hrec (H0 & H1 & H2 & H3). unfold is_u8 in *.
  destruct Hrec as [-> | ->]; cbn [get_u32_endian_value u32_value];
    rewrite !Z.shiftl_mul_pow2 by lia; rewrite !u32_small by lia; f_equal.
  - rewrite (lor_high_low (v32_0 cur) _ 24) by lia.
    replace (v32_0 cur * 2 ^ 24 + v32_1 cur * 2 ^ 16)
      with ((v32_0 cur * 2 ^ 8 + v32_1 cur) * 2 ^ 16) by lia.
    rewrite (lor_high_low _ _ 16) by lia.
    replace ((v32_0 cur * 2 ^ 8 + v32_1 cur) * 2 ^ 16 + v32_2 cur * 2 ^ 8)
      with (((v32_0 cur * 2 ^ 8 + v32_1 cur) * 2 ^ 8 + v32_2 cur) * 2 ^ 8) by lia.
    rewrite (lor_high_low _ _ 8) by lia. lia.
  - rewrite (lor_high_low (v32_3 cur) _ 24) by lia.
    replace (v32_3 cur * 2 ^ 24 + v32_2 cur * 2 ^ 16)
      with ((v32_3 cur * 2 ^ 8 + v32_2 cur) * 2 ^ 16) by lia.
    rewrite (lor_high_low _ _ 16) by lia.
    replace ((v32_3 cur * 2 ^ 8 + v32_2 cur) * 2 ^ 16 + v32_1 cur * 2 ^ 8)
      with (((v32_3 cur * 2 ^ 8 + v32_2 cur) * 2 ^ 8 + v32_1 cur) * 2 ^ 8) by lia.
    rewrite (lor_high_low _ _ 8) by lia. lia.
Qed.

Lemma get_u16_endian_value_spec src endian :
  recognized endian -> wf_utf16 src ->
  get_u16_endian_value src endian = Some (u16_value endian src).
Proof.
  intros Hrec (H0 & H1). unfold is_u8 in *.
  destruct Hrec as [-> | ->]; cbn [get_u16_endian_value u16_value];
    rewrite (u16_small (_ src)) by lia;
    rewrite Z.shiftl_mul_pow2 by lia;
    rewrite (lor_high_low _ _ 8) by lia;
    rewrite u16_small by lia; reflexivity.
Qed.

Lemma u32_value_bounds endian cur :
  wf_utf32 cur -> 0 <= u32_value endian cur < 2 ^ 32.
Proof.
  intros (H0 & H1 & H2 & H3). unfold is_u8 in *.
  destruct endian; cbn [u32_value]; lia.
Qed.

Lemma u16_value_bounds endian src :
  wf_utf16 src -> 0 <= u16_value endian src < 2 ^ 16.
Proof.
  intros (H0 & H1). unfold is_u8 in *.
  destruct endian; cbn [u16_value]; lia.
Qed.

Lemma wf_u32_layout endian x : wf_utf32 (u32_layout endian x).
Proof.
  unfold wf_utf32, is_u8.
  destruct endian; cbn [u32_layout v32_0 v32_1 v32_2 v32_3];
    repeat split; apply Z.mod_pos_bound; reflexivity.
Qed.

Lemma wf_u16_layout endian x : wf_utf16 (u16_layout endian x).
Proof.
  unfold wf_utf16, is_u8.
  destruct endian; cbn [u16_layout v16_0 v16_1];
    repeat split; apply Z.mod_pos_bound; reflexivity.
Qed.

Lemma u32_value_layout endian x :
  0 <= x < 2 ^ 32 -> u32_value endian (u32_layout endian x) = x.
Proof.
  intros Hx.
  destruct endian; cbn [u32_layout u32_value v32_0 v32_1 v32_2 v32_3];
    Z.div_mod_to_equations; lia.
Qed.

Lemma u16_value_layout endian x :
  0 <= x < 2 ^ 16 -> u16_value endian (u16_layout endian x) = x.
Proof.
  intros Hx.
  destruct endian; cbn [u16_layout u16_value v16_0 v16_1];
    Z.div_mod_to_equations; lia.
Qed.

(** ** The UTF-32 encoder, one element at a time *)

Lemma utf8_bytes_length v :
  length (utf8_bytes v) =
    if v <? 2 ^ 7 then 1%nat else if v <? 2 ^ 11 then 2%nat
    else if v <? 2 ^ 16 then 3%nat else 4%nat.
Proof.
  unfold utf8_bytes.
  destruct (v <? 2 ^ 7); [reflexivity|].
  destruct (v <? 2 ^ 11); [reflexivity|].
  destruct (v <? 2 ^ 16); reflexivity.
Qed.

Lemma convert_u32_cons cur rest endian target :
  recognized endian -> wf_utf32 cur ->
  convert_u32str_to_u8str_without_bom (cur :: rest) endian target =
    if u32_value endian cur <? 0x110000
    then convert_u32str_to_u8str_without_bom rest endian
           (target ++ utf8_bytes (u32_value endian cur))
    else (false, target).
Proof.
  intros Hrec Hwf.
  pose proof (u32_value_bounds endian cur Hwf) as Hb.
  cbn [convert_u32str_to_u8str_without_bom].
  rewrite (get_u32_endian_value_spec cur endian Hrec Hwf).
  set (value := u32_value endian cur) in *.
  unfold utf8_bytes. change (2 ^ 7) with 0x80. change (2 ^ 11) with 0x0800.
  change (2 ^ 16) with 0x010000.
  destruct (Z.ltb_spec value 0x80) as [H1|H1].
  { replace (value <? 0x110000) with true by (symmetry; apply Z.ltb_lt; lia).
    flatten_pushes. rewrite u8_small by lia. reflexivity. }
  destruct (Z.ltb_spec value 0x0800) as [H2|H2].
  { replace (value <? 0x110000) with true by (symmetry; apply Z.ltb_lt; lia).
    flatten_pushes. rewrite enc_lead2, enc_cont0 by lia. reflexivity. }
  destruct (Z.ltb_spec value 0x010000) as [H3|H3].
  { replace (value <? 0x110000) with true by (symmetry; apply Z.ltb_lt; lia).
    flatten_pushes. rewrite enc_lead3, enc_cont, enc_cont0 by lia. reflexivity. }
  destruct (Z.ltb_spec value 0x110000) as [H4|H4]; [|reflexivity].
  flatten_pushes. rewrite enc_lead4, !enc_cont, enc_cont0 by lia. reflexivity.
Qed.

Lemma convert_u32_all u32str endian target :
  recognized endian -> Forall wf_utf32 u32str ->
  Forall (fun cur => u32_value endian cur < 0x110000) u32str ->
  convert_u32str_to_u8str_without_bom u32str endian target =
    (true, target ++ flat_map (fun cur => utf8_bytes (u32_value endian cur)) u32str).
Proof.
  intros Hrec Hwf. revert target.
  induction Hwf as [|cur rest Hcur Hrest IH]; intros target Hok.
  - cbn. rewrite app_nil_r. reflexivity.
  - inversion Hok as [|? ? Hv Hvs]; subst.
    rewrite convert_u32_cons by assumption.
    apply Z.ltb_lt in Hv. rewrite Hv.
    rewrite IH by assumption. cbn [flat_map]. rewrite app_assoc. reflexivity.
Qed.

Lemma convert_u32_stops before cur after endian target :
  recognized endian -> Forall wf_utf32 before -> wf_utf32 cur ->
  Forall (fun c => u32_value endian c < 0x110000) before ->
  0x110000 <= u32_value endian cur ->
  convert_u32str_to_u8str_without_bom (before ++ cur :: after) endian target =
    (false, target ++ flat_map (fun c => utf8_bytes (u32_value endian c)) before).
Proof.
  intros Hrec Hwf Hcur Hok Hbad. revert target Hok.
  induction Hwf as [|c rest Hc Hrest IH]; intros target Hok.
  - cbn [app flat_map]. rewrite convert_u32_cons by assumption.
    replace (u32_value endian cur <? 0x110000) with false
      by (symmetry; apply Z.ltb_ge; lia).
    rewrite app_nil_r. reflexivity.
  - inversion Hok as [|? ? Hv Hvs]; subst.
    cbn [app]. rewrite convert_u32_cons by assumption.
    apply Z.ltb_lt in Hv. rewrite Hv.
    rewrite IH by assumption. cbn [flat_map]. rewrite app_assoc. reflexivity.
Qed.

Lemma utf8_bytes_minimal v :
  0 <= v < 2 ^ 21 ->
  v < 2 ^ payload_bits (length (utf8_bytes v)) /\
  (length (utf8_bytes v) = 1%nat \/
   2 ^ payload_bits (length (utf8_bytes v) - 1) <= v).
Proof.
  intros Hv. rewrite utf8_bytes_length.
  destruct (Z.ltb_spec v (2 ^ 7)) as [H1|H1].
  { split; [exact H1 | left; reflexivity]. }
  destruct (Z.ltb_spec v (2 ^ 11)) as [H2|H2].
  { split; [exact H2 | right; exact H1]. }
  destruct (Z.ltb_spec v (2 ^ 16)) as [H3|H3].
  { split; [exact H3 | right; exact H2]. }
  split; [apply Hv | right; exact H3].
Qed.

Lemma utf8_bytes_standard_form v :
  0 <= v < 2 ^ 21 -> standard_form v (utf8_bytes v).
Proof.
  intros Hv. unfold utf8_bytes.
  destruct (Z.ltb_spec v (2 ^ 7)) as [H1|H1].
  { cbn [standard_form]. split; [apply Z.div_small; lia | reflexivity]. }
  destruct (Z.ltb_spec v (2 ^ 11)) as [H2|H2].
  { cbn [standard_form]. repeat split; Z.div_mod_to_equations; lia. }
  destruct (Z.ltb_spec v (2 ^ 16)) as [H3|H3].
  { cbn [standard_form]. repeat split; Z.div_mod_to_equations; lia. }
  cbn [standard_form]. repeat split; Z.div_mod_to_equations; lia.
Qed.

(** ** Reading a [char] *)

Lemma land_char_value sg c m :
  is_u8 c -> 0 <= m < 256 -> Z.land (char_value sg c) m = Z.land c m.
Proof.
  intros Hc Hm. unfold is_u8 in Hc. unfold char_value.
  destruct (sg && (0x80 <=? c)); [|reflexivity].
  assert (Z.land (Z.ones 8) m = m) as Hmask.
  { rewrite Z.land_comm, Z.land_ones by lia. apply Z.mod_small. exact Hm. }
  rewrite <- Hmask, !Z.land_assoc, !Z.land_ones by lia.
  f_equal. replace (c - 0x100) with (c + (-1) * 2 ^ 8) by lia.
  apply Z.mod_add. lia.
Qed.

Lemma seven_bit_char_value sg c :
  is_u8 c -> (Z.land (char_value sg c) 0x7f =? char_value sg c) = (c <? 0x80).
Proof.
  intros Hc. rewrite land_char_value by (assumption || lia).
  unfold is_u8 in Hc. change 0x7f with (2 ^ 7 - 1). rewrite land_mask by lia.
  pose proof (Z.mod_pos_bound c (2 ^ 7) eq_refl) as Hb.
  unfold char_value.
  destruct (Z.ltb_spec c 0x80) as [Hlt|Hge].
  - replace (0x80 <=? c) with false by (symmetry; apply Z.leb_gt; lia).
    rewrite andb_false_r. rewrite Z.mod_small by lia. apply Z.eqb_refl.
  - replace (0x80 <=? c) with true by (symmetry; apply Z.leb_le; lia).
    apply Z.eqb_neq. destruct sg; cbn [andb]; [lia|].
    intros Heq. rewrite Heq in Hb. lia.
Qed.

Lemma high_bit_clear c : is_u8 c -> (Z.land c 0x80 =? 0) = (c <? 0x80).
Proof.
  intros Hc. apply eqb_prop.
  revert c Hc. apply (forall_u8 (fun c => eqb (Z.land c 0x80 =? 0) (c <? 0x80))).
  vm_compute. reflexivity.
Qed.

(** ** The bytes the decoder assembles *)

Lemma dec_bits_2_6 x y :
  Z.lor (Z.shiftl (Z.land x 0x03) 6) (Z.land y 0x3f) = x mod 2 ^ 2 * 2 ^ 6 + y mod 2 ^ 6.
Proof.
  change 0x03 with (2 ^ 2 - 1). change 0x3f with (2 ^ 6 - 1).
  rewrite !land_mask, Z.shiftl_mul_pow2 by lia.
  apply lor_high_low; [lia | apply Z.mod_pos_bound; reflexivity].
Qed.

Lemma dec_bits_4_4 x y :
  Z.lor (Z.shiftl (Z.land x 0x0f) 4) (Z.shiftr (Z.land y 0x3c) 2)
  = x mod 2 ^ 4 * 2 ^ 4 + y / 2 ^ 2 mod 2 ^ 4.
Proof.
  rewrite Z.shiftr_land. change (Z.shiftr 0x3c 2) with (2 ^ 4 - 1).
  change 0x0f with (2 ^ 4 - 1).
  rewrite !land_mask, Z.shiftl_mul_pow2, Z.shiftr_div_pow2 by lia.
  apply lor_high_low; [lia | apply Z.mod_pos_bound; reflexivity].
Qed.

Lemma dec_bits_3_2 x y :
  Z.lor (Z.shiftl (Z.land x 0x07) 2) (Z.shiftr (Z.land y 0x30) 4)
  = x mod 2 ^ 3 * 2 ^ 2 + y / 2 ^ 4 mod 2 ^ 2.
Proof.
  rewrite Z.shiftr_land. change (Z.shiftr 0x30 4) with (2 ^ 2 - 1).
  change 0x07 with (2 ^ 3 - 1).
  rewrite !land_mask, Z.shiftl_mul_pow2, Z.shiftr_div_pow2 by lia.
  apply lor_high_low; [lia | apply Z.mod_pos_bound; reflexivity].
Qed.

Lemma dec_bits_3 x : Z.shiftr (Z.land x 0x1c) 2 = x / 2 ^ 2 mod 2 ^ 3.
Proof.
  rewrite Z.shiftr_land. change (Z.shiftr 0x1c 2) with (2 ^ 3 - 1).
  rewrite land_mask, Z.shiftr_div_pow2 by lia. reflexivity.
Qed.

Lemma sequence_length_ranges c :
  is_u8 c ->
  sequence_length c =
    if c <? 0x80 then Some 1%nat else if c <? 0xC0 then None
    else if c <? 0xE0 then Some 2%nat else if c <? 0xF0 then Some 3%nat
    else Some 4%nat.
Proof.
  intros Hc.
  assert (option_nat_eqb (sequence_length c)
            (if c <? 0x80 then Some 1%nat else if c <? 0xC0 then None
             else if c <? 0xE0 then Some 2%nat else if c <? 0xF0 then Some 3%nat
             else Some 4%nat) = true) as Heq.
  { revert c Hc. apply forall_u8. vm_compute. reflexivity. }
  destruct (sequence_length c) as [x|], (c <? 0x80), (c <? 0xC0), (c <? 0xE0), (c <? 0xF0);
    cbn [option_nat_eqb] in Heq; try discriminate; try reflexivity;
    apply Nat.eqb_eq in Heq; congruence.
Qed.

Lemma decoder_nil sg endian target : decoder_for sg endian [] target = (true, target).
Proof. unfold decoder_for. destruct endian; reflexivity. Qed.

(** One turn of the decoding loop. *)
Lemma decoder_cons sg endian c0 r1 target :
  is_u8 c0 -> Forall is_u8 r1 ->
  decoder_for sg endian (c0 :: r1) target =
    match sequence_length c0 with
    | None => (false, target)
    | Some n =>
        if (length r1 <? n - 1)%nat then (false, target)
        else decoder_for sg endian (skipn (n - 1) r1)
               (target ++ [u32_layout endian (utf8_payload (c0 :: firstn (n - 1) r1))])
    end.
Proof.
  intros H0 Hr1.
  assert (forall c, is_u8 c -> 0 <= c < 256) as Hrange by (intros c Hc; exact Hc).
  unfold decoder_for, sequence_length.
  destruct endian; cbn [UTF_ENDIAN_eqb];
    cbn [convert_u8str_to_u32str_little_endian convert_u8str_to_u32str_big_endian];
    unfold push_back32;
    rewrite seven_bit_char_value, high_bit_clear by assumption;
    rewrite !(land_char_value sg c0) by (assumption || lia);
    (destruct (Z.eqb_spec (Z.land c0 0xF0) 0xF0) as [E4|E4];
     [ destruct r1 as [|c1 [|c2 [|c3 rest]]]; try reflexivity;
       inversion Hr1 as [|? ? H1 Hr2]; subst;
       inversion Hr2 as [|? ? H2 Hr3]; subst;
       inversion Hr3 as [|? ? H3 Hr4]; subst;
       cbn [length Nat.sub Nat.ltb Nat.leb skipn firstn u32_layout];
       rewrite !land_char_value by (assumption || lia);
       rewrite dec_bits_3_2, dec_bits_4_4, dec_bits_2_6;
       apply Hrange in H0, H1, H2, H3;
       do 3 f_equal; f_equal; layout_bytes
     | ]);
    (destruct (Z.eqb_spec (Z.land c0 0xE0) 0xE0) as [E3|E3];
     [ destruct r1 as [|c1 [|c2 rest]]; try reflexivity;
       inversion Hr1 as [|? ? H1 Hr2]; subst;
       inversion Hr2 as [|? ? H2 Hr3]; subst;
       cbn [length Nat.sub Nat.ltb Nat.leb skipn firstn u32_layout];
       rewrite !land_char_value by (assumption || lia);
       rewrite dec_bits_4_4, dec_bits_2_6;
       apply Hrange in H0, H1, H2;
       do 3 f_equal; f_equal; layout_bytes
     | ]);
    (destruct (Z.eqb_spec (Z.land c0 0xC0) 0xC0) as [E2|E2];
     [ destruct r1 as [|c1 rest]; try reflexivity;
       inversion Hr1 as [|? ? H1 Hr2]; subst;
       cbn [length Nat.sub Nat.ltb Nat.leb skipn firstn u32_layout];
       rewrite !land_char_value by (assumption || lia);
       rewrite dec_bits_3, dec_bits_2_6;
       apply Hrange in H0, H1;
       do 3 f_equal; f_equal; layout_bytes
     | ]);
    (destruct (Z.ltb_spec c0 0x80) as [E1|E1]; [|reflexivity]);
    cbn [length Nat.sub Nat.ltb Nat.leb skipn firstn u32_layout];
    unfold char_value;
    replace (0x80 <=? c0) with false by (symmetry; apply Z.leb_gt; lia);
    rewrite andb_false_r;
    apply Hrange in H0;
    do 3 f_equal; f_equal; layout_bytes.
Qed.

(** ** Where the decoder stops *)

Lemma to_u32string_decoder sg u8str target endian add_bom :
  to_u32string sg u8str target endian add_bom =
    decoder_for sg endian u8str
      (if add_bom then [get_u32_str_bom endian] else []).
Proof.
  unfold to_u32string, decoder_for, push_back32.
  destruct endian, add_bom; reflexivity.
Qed.

Lemma sequence_length_bounds c n :
  sequence_length c = Some n -> (1 <= n <= 4)%nat.
Proof.
  unfold sequence_length.
  destruct (Z.land c 0xF0 =? 0xF0); [intros [= <-]; lia|].
  destruct (Z.land c 0xE0 =? 0xE0); [intros [= <-]; lia|].
  destruct (Z.land c 0xC0 =? 0xC0); [intros [= <-]; lia|].
  destruct (Z.land c 0x80 =? 0); [intros [= <-]; lia | discriminate].
Qed.

Lemma stray_lead_iff c : stray_lead c <-> sequence_length c = None.
Proof.
  unfold stray_lead, sequence_length.
  destruct (Z.eqb_spec (Z.land c 0xF0) 0xF0);
    [split; [tauto | discriminate]|].
  destruct (Z.eqb_spec (Z.land c 0xE0) 0xE0);
    [split; [tauto | discriminate]|].
  destruct (Z.eqb_spec (Z.land c 0xC0) 0xC0);
    [split; [tauto | discriminate]|].
  destruct (Z.eqb_spec (Z.land c 0x80) 0);
    [split; [tauto | discriminate]|].
  tauto.
Qed.

Lemma stray_lead_pattern c : is_u8 c -> (stray_lead c <-> Z.land c 0xC0 = 0x80).
Proof.
  intros Hc. rewrite stray_lead_iff, sequence_length_ranges by assumption.
  assert ((Z.land c 0xC0 =? 0x80) = (0x80 <=? c) && (c <? 0xC0)) as Hpat.
  { apply eqb_prop. revert c Hc.
    apply (forall_u8 (fun c => eqb (Z.land c 0xC0 =? 0x80) ((0x80 <=? c) && (c <? 0xC0)))).
    vm_compute. reflexivity. }
  rewrite <- Z.eqb_eq, Hpat.
  destruct (Z.ltb_spec c 0x80), (Z.leb_spec 0x80 c), (Z.ltb_spec c 0xC0),
    (Z.ltb_spec c 0xE0), (Z.ltb_spec c 0xF0); cbn [andb];
    try lia; split; (discriminate || reflexivity).
Qed.

Lemma decoder_stops_at_bad_byte sg endian c rest target :
  is_u8 c -> Forall is_u8 rest ->
  stray_lead c \/ truncated_sequence c rest ->
  decoder_for sg endian (c :: rest) target = (false, target).
Proof.
  intros Hc Hrest Hbad. rewrite decoder_cons by assumption.
  destruct Hbad as [Hstray | (n & Hn & Hshort)].
  - apply stray_lead_iff in Hstray. rewrite Hstray. reflexivity.
  - rewrite Hn. apply Nat.ltb_lt in Hshort. rewrite Hshort. reflexivity.
Qed.

Lemma decoder_skips_complete sg endian before :
  complete_sequences before ->
  forall after target, Forall is_u8 (before ++ after) ->
  exists target',
    decoder_for sg endian (before ++ after) target = decoder_for sg endian after target'.
Proof.
  induction 1 as [|c n tail more Hn Hlen Hmore IH]; intros after target Hall.
  - exists target. reflexivity.
  - cbn [app] in Hall |- *. rewrite <- app_assoc in Hall |- *.
    inversion Hall as [|? ? Hc Hrest]; subst.
    rewrite decoder_cons by assumption. rewrite Hn.
    replace (length (tail ++ more ++ after) <? n - 1)%nat with false
      by (symmetry; apply Nat.ltb_ge; rewrite length_app; lia).
    rewrite <- Hlen, skipn_app, Nat.sub_diag, skipn_all, skipn_O. cbn [app].
    apply IH. apply Forall_app in Hrest. apply Hrest.
Qed.

Lemma decoder_failure_position sg endian :
  forall k u8str, (length u8str <= k)%nat -> Forall is_u8 u8str ->
  forall target, fst (decoder_for sg endian u8str target) = false ->
  exists before c rest,
    u8str = before ++ c :: rest /\ complete_sequences before /\
    (stray_lead c \/ truncated_sequence c rest).
Proof.
  induction k as [|k IH]; intros u8str Hlen Hall target Hfail.
  - destruct u8str; [|cbn in Hlen; lia].
    rewrite decoder_nil in Hfail. discriminate.
  - destruct u8str as [|c0 r1].
    { rewrite decoder_nil in Hfail. discriminate. }
    inversion Hall as [|? ? Hc Hrest]; subst.
    rewrite decoder_cons in Hfail by assumption.
    destruct (sequence_length c0) as [n|] eqn:Hn.
    + destruct (Nat.ltb_spec (length r1) (n - 1)) as [Hshort|Hlong].
      * exists [], c0, r1. split; [reflexivity|]. split; [constructor|].
        right. exists n. split; assumption.
      * rewrite <- (firstn_skipn (n - 1) r1) in Hrest.
        apply Forall_app in Hrest as [_ Hafter].
        pose proof (sequence_length_bounds c0 n Hn) as Hb.
        apply IH in Hfail; [| rewrite length_skipn; cbn in Hlen; lia | assumption].
        destruct Hfail as (before & c & rest & Heq & Hcomplete & Hbad).
        exists (c0 :: firstn (n - 1) r1 ++ before), c, rest.
        split; [| split; [| exact Hbad]].
        -- cbn [app]. rewrite <- app_assoc, <- Heq, firstn_skipn. reflexivity.
        -- apply (complete_cons c0 n); try assumption.
           rewrite length_firstn. lia.
    + exists [], c0, r1. split; [reflexivity|]. split; [constructor|].
      left. apply stray_lead_iff. assumption.
Qed.

Lemma decoder_fails_iff sg endian u8str target :
  Forall is_u8 u8str ->
  fst (decoder_for sg endian u8str target) = false <->
  exists before c rest,
    u8str = before ++ c :: rest /\ complete_sequences before /\
    (stray_lead c \/ truncated_sequence c rest).
Proof.
  intros Hall. split.
  - apply (decoder_failure_position sg endian (length u8str)); [lia | assumption].
  - intros (before & c & rest & -> & Hcomplete & Hbad).
    destruct (decoder_skips_complete sg endian before Hcomplete (c :: rest) target Hall)
      as [target' ->].
    apply Forall_app in Hall as [_ Hall].
    inversion Hall; subst.
    rewrite decoder_stops_at_bad_byte by assumption. reflexivity.
Qed.

Lemma decoder_accepts_complete sg endian u8str target :
  Forall is_u8 u8str -> complete_sequences u8str ->
  fst (decoder_for sg endian u8str target) = true.
Proof.
  intros Hall Hcomplete.
  rewrite <- (app_nil_r u8str) in Hall |- *.
  destruct (decoder_skips_complete sg endian u8str Hcomplete [] target Hall)
    as [target' ->].
  rewrite decoder_nil. reflexivity.
Qed.

(** A single whole sequence decodes to the unit that holds its payload. *)
Lemma decoder_one_sequence sg endian c tail target :
  is_u8 c -> Forall is_u8 tail ->
  sequence_length c = Some (S (length tail)) ->
  decoder_for sg endian (c :: tail) target =
    (true, target ++ [u32_layout endian (utf8_payload (c :: tail))]).
Proof.
  intros Hc Htail Hn. rewrite decoder_cons by assumption. rewrite Hn.
  cbn [Nat.sub]. rewrite Nat.sub_0_r, Nat.ltb_irrefl, skipn_all, firstn_all.
  apply decoder_nil.
Qed.

(** ** Decoding what the encoder writes *)

Lemma utf8_bytes_sequence v :
  0 <= v < 2 ^ 21 ->
  exists c tail,
    utf8_bytes v = c :: tail /\ is_u8 c /\ Forall is_u8 tail /\
    sequence_length c = Some (S (length tail)) /\
    utf8_payload (c :: tail) = v.
Proof.
  intros Hv. unfold utf8_bytes.
  destruct (Z.ltb_spec v (2 ^ 7)) as [H1|H1].
  { exists v, []. assert (is_u8 v) as Hc by (unfold is_u8; lia).
    repeat split; try lia; try constructor.
    rewrite sequence_length_ranges by assumption.
    replace (v <? 0x80) with true by (symmetry; apply Z.ltb_lt; lia). reflexivity. }
  destruct (Z.ltb_spec v (2 ^ 11)) as [H2|H2].
  { eexists; eexists. split; [reflexivity|].
    assert (is_u8 (0xC0 + v / 2 ^ 6) /\ 0xC0 <= 0xC0 + v / 2 ^ 6 < 0xE0) as [Hc Hr]
      by (unfold is_u8; Z.div_mod_to_equations; lia).
    split; [exact Hc|]. split.
    { repeat constructor; unfold is_u8; Z.div_mod_to_equations; lia. }
    split.
    { rewrite sequence_length_ranges by assumption.
      replace (_ <? 0x80) with false by (symmetry; apply Z.ltb_ge; lia).
      replace (_ <? 0xC0) with false by (symmetry; apply Z.ltb_ge; lia).
      replace (_ <? 0xE0) with true by (symmetry; apply Z.ltb_lt; lia).
      reflexivity. }
    unfold utf8_payload. Z.div_mod_to_equations; lia. }
  destruct (Z.ltb_spec v (2 ^ 16)) as [H3|H3].
  { eexists; eexists. split; [reflexivity|].
    assert (is_u8 (0xE0 + v / 2 ^ 12) /\ 0xE0 <= 0xE0 + v / 2 ^ 12 < 0xF0) as [Hc Hr]
      by (unfold is_u8; Z.div_mod_to_equations; lia).
    split; [exact Hc|]. split.
    { repeat constructor; unfold is_u8; Z.div_mod_to_equations; lia. }
    split.
    { rewrite sequence_length_ranges by assumption.
      replace (_ <? 0x80) with false by (symmetry; apply Z.ltb_ge; lia).
      replace (_ <? 0xC0) with false by (symmetry; apply Z.ltb_ge; lia).
      replace (_ <? 0xE0) with false by (symmetry; apply Z.ltb_ge; lia).
      replace (_ <? 0xF0) with true by (symmetry; apply Z.ltb_lt; lia).
      reflexivity. }
    unfold utf8_payload. Z.div_mod_to_equations; lia. }
  eexists; eexists. split; [reflexivity|].
  assert (is_u8 (0xF0 + v / 2 ^ 18) /\ 0xF0 <= 0xF0 + v / 2 ^ 18) as [Hc Hr]
    by (unfold is_u8; Z.div_mod_to_equations; lia).
  split; [exact Hc|]. split.
  { repeat constructor; unfold is_u8; Z.div_mod_to_equations; lia. }
  split.
  { rewrite sequence_length_ranges by assumption.
    replace (_ <? 0x80) with false by (symmetry; apply Z.ltb_ge; lia).
    replace (_ <? 0xC0) with false by (symmetry; apply Z.ltb_ge; lia).
    replace (_ <? 0xE0) with false by (symmetry; apply Z.ltb_ge; lia).
    replace (_ <? 0xF0) with false by (symmetry; apply Z.ltb_ge; lia).
    reflexivity. }
  unfold utf8_payload. Z.div_mod_to_equations; lia.
Qed.

Lemma decoder_utf8_bytes sg endian v target :
  0 <= v < 2 ^ 21 ->
  decoder_for sg endian (utf8_bytes v) target = (true, target ++ [u32_layout endian v]).
Proof.
  intros Hv.
  destruct (utf8_bytes_sequence v Hv) as (c & tail & -> & Hc & Htail & Hn & Hpay).
  rewrite decoder_one_sequence by assumption. rewrite Hpay. reflexivity.
Qed.

Lemma to_u8string_u32_single endian cur target :
  recognized endian -> wf_utf32 cur -> u32_value endian cur < 0x110000 ->
  to_u8string_u32 [cur] endian target = (true, utf8_bytes (u32_value endian cur)).
Proof.
  intros Hrec Hwf Hv. unfold to_u8string_u32.
  rewrite convert_u32_cons by assumption.
  apply Z.ltb_lt in Hv. rewrite Hv. reflexivity.
Qed.

(** ** The UTF-16 encoder, one step at a time *)

Lemma lor_below a b n :
  0 <= n -> 0 <= a < 2 ^ n -> 0 <= b < 2 ^ n -> 0 <= Z.lor a b < 2 ^ n.
Proof.
  intros Hn Ha Hb.
  assert (0 <= Z.lor a b) as Hnonneg by (apply Z.lor_nonneg; lia).
  split; [exact Hnonneg|].
  destruct (Z.eq_dec (Z.lor a b) 0) as [->|Hnz]; [apply pow2_pos; lia|].
  assert (0 < n) as Hpos.
  { destruct (Z.eq_dec n 0) as [->|]; [|lia].
    change (2 ^ 0) with 1 in Ha, Hb.
    assert (a = 0) as -> by lia. assert (b = 0) as -> by lia.
    contradiction Hnz. reflexivity. }
  apply Z.log2_lt_pow2; [lia|].
  rewrite Z.log2_lor by lia.
  apply Z.max_lub_lt.
  - destruct (Z.eq_dec a 0) as [->|]; [exact Hpos|]. apply Z.log2_lt_pow2; lia.
  - destruct (Z.eq_dec b 0) as [->|]; [exact Hpos|]. apply Z.log2_lt_pow2; lia.
Qed.

Lemma assembled_code_point_bounds high low :
  0xd800 <= high < 0xdc00 -> 0xdc00 <= low < 2 ^ 16 ->
  0x10000 <= assembled_code_point high low < 2 ^ 21.
Proof.
  intros Hh Hl. unfold assembled_code_point.
  pose proof (lor_below ((high - 0xd800) * 2 ^ 10) (low - 0xdc00) 20) as Hb.
  lia.
Qed.

Lemma assembled_code_point_pair high low :
  0xd800 <= high < 0xdc00 -> 0xdc00 <= low < 0xe000 ->
  assembled_code_point high low
  = 0x10000 + Z.shiftl (high - 0xD800) 10 + (low - 0xDC00).
Proof.
  intros Hh Hl. unfold assembled_code_point.
  rewrite lor_high_low, Z.shiftl_mul_pow2 by lia. lia.
Qed.

(** A unit that does not open a surrogate pair. *)
Lemma convert_u16_plain cur rest endian target :
  recognized endian -> wf_utf16 cur ->
  ~ 0xd800 <= u16_value endian cur < 0xdc00 ->
  convert_u16str_to_u8str_without_bom (cur :: rest) endian target =
    convert_u16str_to_u8str_without_bom rest endian
      (target ++ utf8_bytes (u16_value endian cur)).
Proof.
  intros Hrec Hwf Hplain.
  pose proof (u16_value_bounds endian cur Hwf) as Hb.
  cbn [convert_u16str_to_u8str_without_bom].
  rewrite (get_u16_endian_value_spec cur endian Hrec Hwf).
  set (value := u16_value endian cur) in *.
  unfold utf8_bytes. change (2 ^ 7) with 0x80. change (2 ^ 11) with 0x0800.
  destruct (Z.ltb_spec value 0x80) as [H1|H1].
  { flatten_pushes. rewrite u8_small by lia. reflexivity. }
  destruct (Z.ltb_spec value 0x0800) as [H2|H2].
  { flatten_pushes. rewrite enc_lead2, enc_cont0 by lia. reflexivity. }
  replace ((0xd800 <=? value) && (value <? 0xdc00)) with false
    by (symmetry; apply andb_false_iff;
        rewrite Z.leb_gt, Z.ltb_ge; lia).
  replace (value <? 2 ^ 16) with true by (symmetry; apply Z.ltb_lt; lia).
  flatten_pushes. rewrite enc_lead3, enc_cont, enc_cont0 by lia. reflexivity.
Qed.

Lemma lead_surrogate_test value :
  0xd800 <= value < 0xdc00 ->
  (value <? 0x80) = false /\ (value <? 0x0800) = false /\
  (0xd800 <=? value) && (value <? 0xdc00) = true.
Proof.
  intros Hv. rewrite andb_true_iff, !Z.ltb_ge, Z.leb_le, Z.ltb_lt. lia.
Qed.

(** A lead surrogate with nothing after it. *)
Lemma convert_u16_lone_lead cur endian target :
  recognized endian -> wf_utf16 cur ->
  0xd800 <= u16_value endian cur < 0xdc00 ->
  convert_u16str_to_u8str_without_bom [cur] endian target = Some (false, target).
Proof.
  intros Hrec Hwf Hlead.
  cbn [convert_u16str_to_u8str_without_bom].
  rewrite (get_u16_endian_value_spec cur endian Hrec Hwf).
  destruct (lead_surrogate_test _ Hlead) as (-> & -> & ->). reflexivity.
Qed.

(** A lead surrogate and the unit after it. *)
Lemma convert_u16_lead cur cur' rest endian target :
  recognized endian -> wf_utf16 cur -> wf_utf16 cur' ->
  0xd800 <= u16_value endian cur < 0xdc00 ->
  convert_u16str_to_u8str_without_bom (cur :: cur' :: rest) endian target =
    if u16_value endian cur' <? 0xdc00 then Some (false, target)
    else convert_u16str_to_u8str_without_bom rest endian
           (target ++ utf8_bytes
              (assembled_code_point (u16_value endian cur) (u16_value endian cur'))).
Proof.
  intros Hrec Hwf Hwf' Hlead.
  pose proof (u16_value_bounds endian cur' Hwf') as Hb'.
  cbn [convert_u16str_to_u8str_without_bom].
  rewrite (get_u16_endian_value_spec cur endian Hrec Hwf).
  rewrite (get_u16_endian_value_spec cur' endian Hrec Hwf').
  destruct (lead_surrogate_test _ Hlead) as (-> & -> & ->).
  set (high := u16_value endian cur) in *.
  set (low := u16_value endian cur') in *.
  destruct (Z.ltb_spec low 0xdc00) as [Hlow|Hlow]; [reflexivity|].
  pose proof (assembled_code_point_bounds high low Hlead (conj Hlow (proj2 Hb'))) as Hcp.
  rewrite (u32_small (high - 0xd800)) by lia.
  rewrite Z.shiftl_mul_pow2 by lia.
  rewrite (u32_small ((high - 0xd800) * 2 ^ 10)) by lia.
  rewrite (u32_small (low - 0xdc00)) by lia.
  fold (assembled_code_point high low).
  rewrite (u32_small (assembled_code_point high low)) by lia.
  flatten_pushes.
  rewrite enc_lead4_nomask, !enc_cont, enc_cont0 by lia.
  unfold utf8_bytes.
  replace (_ <? 2 ^ 7) with false by (symmetry; apply Z.ltb_ge; lia).
  replace (_ <? 2 ^ 11) with false by (symmetry; apply Z.ltb_ge; lia).
  replace (_ <? 2 ^ 16) with false by (symmetry; apply Z.ltb_ge; lia).
  reflexivity.
Qed.

(** Units that are converted on their own leave the cursor on whatever
    follows them. *)
Lemma convert_u16_app endian :
  recognized endian ->
  forall k before, (length before <= k)%nat -> Forall wf_utf16 before ->
  forall target out rest,
    convert_u16str_to_u8str_without_bom before endian target = Some (true, out) ->
    convert_u16str_to_u8str_without_bom (before ++ rest) endian target =
      convert_u16str_to_u8str_without_bom rest endian out.
Proof.
  intros Hrec. induction k as [|k IH]; intros before Hlen Hwf target out rest Hrun.
  - destruct before; [|cbn in Hlen; lia]. cbn in Hrun. injection Hrun as <-. reflexivity.
  - destruct before as [|cur r].
    { cbn in Hrun. injection Hrun as <-. reflexivity. }
    inversion Hwf as [|? ? Hcur Hr]; subst. cbn [length] in Hlen.
    destruct (Z.le_gt_cases 0xd800 (u16_value endian cur)) as [Hge|Hlt];
      [destruct (Z.lt_ge_cases (u16_value endian cur) 0xdc00) as [Hlead|Hnot]|].
    + destruct r as [|cur' r'].
      { rewrite convert_u16_lone_lead in Hrun by (assumption || lia). discriminate. }
      inversion Hr as [|? ? Hcur' Hr']; subst. cbn [length] in Hlen.
      cbn [app]. rewrite convert_u16_lead in Hrun |- * by (assumption || lia).
      destruct (u16_value endian cur' <? 0xdc00); [discriminate|].
      apply IH; [lia | assumption | exact Hrun].
    + cbn [app]. rewrite convert_u16_plain in Hrun |- * by (assumption || lia).
      apply IH; [lia | assumption | exact Hrun].
    + cbn [app]. rewrite convert_u16_plain in Hrun |- * by (assumption || lia).
      apply IH; [lia | assumption | exact Hrun].
Qed.

Lemma to_u8string_u16_app endian before rest target out :
  recognized endian -> Forall wf_utf16 before ->
  to_u8string_u16 before endian target = Some (true, out) ->
  to_u8string_u16 (before ++ rest) endian target =
    convert_u16str_to_u8str_without_bom rest endian out.
Proof.
  intros Hrec Hwf Hrun. unfold to_u8string_u16 in *.
  apply (convert_u16_app endian Hrec (length before)); [lia | assumption | exact Hrun].
Qed.

Lemma utf8_bytes_surrogate_band v :
  0xD800 <= v <= 0xDFFF ->
  utf8_bytes v = [0xED; 0x80 + v / 2 ^ 6 mod 2 ^ 6; 0x80 + v mod 2 ^ 6].
Proof.
  intros Hv. unfold utf8_bytes.
  replace (v <? 2 ^ 7) with false by (symmetry; apply Z.ltb_ge; lia).
  replace (v <? 2 ^ 11) with false by (symmetry; apply Z.ltb_ge; lia).
  replace (v <? 2 ^ 16) with true by (symmetry; apply Z.ltb_lt; lia).
  replace (v / 2 ^ 12) with 13 by (Z.div_mod_to_equations; lia).
  reflexivity.
Qed.

(** * Properties of the conversion routines *)

(** C1.  A Unicode scalar value, stored as one UTF-32 unit in either byte
    order, is encoded to UTF-8 successfully, and decoding those bytes for the
    same byte order without a byte-order mark succeeds and gives back exactly
    that one unit. *)
Theorem C1_scalar_round_trip :
  forall (char_is_signed : bool) (endian : UTF_ENDIAN) (cp : Z)
         (target : u8string) (target' : u32string),
    recognized endian -> unicode_scalar cp ->
    exists u8str,
      to_u8string_u32 [u32_layout endian cp] endian target = (true, u8str) /\
      to_u32string char_is_signed u8str target' endian false
      = (true, [u32_layout endian cp]).
Proof.
  intros sg endian cp target target' Hrec Hcp.
  assert (0 <= cp < 0x110000) as Hrange by (unfold unicode_scalar in Hcp; lia).
  assert (u32_value endian (u32_layout endian cp) = cp) as Hval
    by (apply u32_value_layout; lia).
  exists (utf8_bytes cp). split.
  - rewrite to_u8string_u32_single; rewrite ?Hval;
      [reflexivity | assumption | apply wf_u32_layout | lia].
  - rewrite to_u32string_decoder, decoder_utf8_bytes by lia. reflexivity.
Qed.

Lemma C1_scalar_round_trip_witness :
  recognized UTF_ENDIAN_LITTLE_ENDIAN /\ unicode_scalar 0x20AC /\
  exists u8str,
    to_u8string_u32 [u32_layout UTF_ENDIAN_LITTLE_ENDIAN 0x20AC]
      UTF_ENDIAN_LITTLE_ENDIAN [] = (true, u8str) /\
    to_u32string true u8str [] UTF_ENDIAN_LITTLE_ENDIAN false
    = (true, [u32_layout UTF_ENDIAN_LITTLE_ENDIAN 0x20AC]).
Proof.
  assert (recognized UTF_ENDIAN_LITTLE_ENDIAN) as Hrec by (right; reflexivity).
  assert (unicode_scalar 0x20AC) as Hcp by (left; lia).
  split; [exact Hrec | split; [exact Hcp |]].
  exact (C1_scalar_round_trip true UTF_ENDIAN_LITTLE_ENDIAN 0x20AC [] [] Hrec Hcp).
Defined.

(** C2.  What the byte-order-mark entry point for UTF-16 does where the
    specification has the first unit examined: the unit matched against the
    two mark patterns is the one at index 1, so the result never depends on
    the first unit.  A big-endian or little-endian mark followed by the
    letter A is refused, a buffer holding only a mark is refused, and a
    buffer whose second unit is a mark is converted from its second unit on,
    the mark included.  The entry point for UTF-32 examines the first unit and
    converts a mark followed by the letter A to the one byte of A. *)
Theorem C2_u16_bom_entry_examines_second_unit :
  (forall (first first' : utf16_character) (after : u16string) (target : u8string),
     to_u8string_u16_with_bom (first :: after) target
     = to_u8string_u16_with_bom (first' :: after) target) /\
  to_u8string_u16_with_bom [mk_utf16 0xfe 0xff; mk_utf16 0x00 0x41] [] = Some (false, []) /\
  to_u8string_u16_with_bom [mk_utf16 0xff 0xfe; mk_utf16 0x41 0x00] [] = Some (false, []) /\
  to_u8string_u16_with_bom [mk_utf16 0xfe 0xff] [] = Some (false, []) /\
  to_u8string_u16_with_bom [mk_utf16 0x00 0x41; mk_utf16 0xfe 0xff; mk_utf16 0x00 0x42] []
  = Some (true, [0xEF; 0xBB; 0xBF; 0x42]) /\
  to_u8string_u32_with_bom [mk_utf32 0x00 0x00 0xfe 0xff; mk_utf32 0x00 0x00 0x00 0x41] []
  = (true, [0x41]).
Proof.
  split; [intros first first' after target; reflexivity|].
  repeat split; vm_compute; reflexivity.
Qed.

(** C3.  What the UTF-16 encoder does with a lead surrogate followed by a
    unit of value [0xE000] or more, which the specification has refused:
    the two units are combined and four bytes are written, and the
    conversion goes on with the units after them; the pair alone is
    converted successfully. *)
Theorem C3_u16_lead_then_unit_above_trail_range :
  forall (endian : UTF_ENDIAN) (cur cur' : utf16_character) (rest : u16string)
         (target : u8string),
    recognized endian -> wf_utf16 cur -> wf_utf16 cur' ->
    0xD800 <= u16_value endian cur < 0xDC00 ->
    0xE000 <= u16_value endian cur' ->
    exists out,
      length out = 4%nat /\
      convert_u16str_to_u8str_without_bom (cur :: cur' :: rest) endian target
      = convert_u16str_to_u8str_without_bom rest endian (target ++ out) /\
      to_u8string_u16 [cur; cur'] endian target = Some (true, out).
Proof.
  intros endian cur cur' rest target Hrec Hwf Hwf' Hlead Hlow.
  pose proof (u16_value_bounds endian cur' Hwf') as Hb'.
  pose proof (assembled_code_point_bounds _ (u16_value endian cur') Hlead
                ltac:(lia)) as Hcp.
  exists (utf8_bytes (assembled_code_point (u16_value endian cur) (u16_value endian cur'))).
  assert ((u16_value endian cur' <? 0xdc00) = false) as Htest by (apply Z.ltb_ge; lia).
  split; [| split].
  - rewrite utf8_bytes_length.
    replace (_ <? 2 ^ 7) with false by (symmetry; apply Z.ltb_ge; lia).
    replace (_ <? 2 ^ 11) with false by (symmetry; apply Z.ltb_ge; lia).
    replace (_ <? 2 ^ 16) with false by (symmetry; apply Z.ltb_ge; lia).
    reflexivity.
  - rewrite convert_u16_lead by assumption. rewrite Htest. reflexivity.
  - unfold to_u8string_u16. rewrite convert_u16_lead by assumption.
    rewrite Htest. reflexivity.
Qed.

Lemma C3_u16_lead_then_unit_above_trail_range_witness :
  recognized UTF_ENDIAN_BIG_ENDIAN /\
  wf_utf16 (mk_utf16 0xD8 0x00) /\ wf_utf16 (mk_utf16 0xE0 0x00) /\
  0xD800 <= u16_value UTF_ENDIAN_BIG_ENDIAN (mk_utf16 0xD8 0x00) < 0xDC00 /\
  0xE000 <= u16_value UTF_ENDIAN_BIG_ENDIAN (mk_utf16 0xE0 0x00) /\
  exists out,
    length out = 4%nat /\
    convert_u16str_to_u8str_without_bom [mk_utf16 0xD8 0x00; mk_utf16 0xE0 0x00]
      UTF_ENDIAN_BIG_ENDIAN []
    = convert_u16str_to_u8str_without_bom [] UTF_ENDIAN_BIG_ENDIAN ([] ++ out) /\
    to_u8string_u16 [mk_utf16 0xD8 0x00; mk_utf16 0xE0 0x00] UTF_ENDIAN_BIG_ENDIAN []
    = Some (true, out).
Proof.
  assert (recognized UTF_ENDIAN_BIG_ENDIAN) as Hrec by (left; reflexivity).
  assert (wf_utf16 (mk_utf16 0xD8 0x00)) as Hwf by (vm_compute; intuition discriminate).
  assert (wf_utf16 (mk_utf16 0xE0 0x00)) as Hwf' by (vm_compute; intuition discriminate).
  assert (0xD800 <= u16_value UTF_ENDIAN_BIG_ENDIAN (mk_utf16 0xD8 0x00) < 0xDC00) as Hlead
    by (vm_compute; intuition discriminate).
  assert (0xE000 <= u16_value UTF_ENDIAN_BIG_ENDIAN (mk_utf16 0xE0 0x00)) as Hlow
    by (vm_compute; discriminate).
  repeat (split; [assumption|]).
  exact (C3_u16_lead_then_unit_above_trail_range UTF_ENDIAN_BIG_ENDIAN
           (mk_utf16 0xD8 0x00) (mk_utf16 0xE0 0x00) [] [] Hrec Hwf Hwf' Hlead Hlow).
Defined.

(** C4.  For every value below [0x110000] read from the input in a
    recognized byte order, the UTF-32 encoder appends the UTF-8 form of that
    value and goes on: one byte below [0x80], two below [0x800], three below
    [0x10000], four otherwise, in the lead-byte and continuation-byte bit
    patterns of the standard.  That form is the shortest one whose payload
    bits hold the value: the value fits them, and does not fit the payload
    bits of the form one byte shorter.  A whole input of such values is
    converted to the concatenation of their forms, and the values 0x7F, 0x80,
    0x7FF, 0x800, 0xFFFF, 0x10000 and 0x10FFFF give 1, 2, 2, 3, 3, 4 and 4
    bytes. *)
Theorem C4_u32_encoder_standard_minimal_form :
  (forall (endian : UTF_ENDIAN) (cur : utf32_character) (rest : u32string)
          (target : u8string),
     recognized endian -> wf_utf32 cur -> u32_value endian cur < 0x110000 ->
     let v := u32_value endian cur in
     convert_u32str_to_u8str_without_bom (cur :: rest) endian target
     = convert_u32str_to_u8str_without_bom rest endian (target ++ utf8_bytes v) /\
     standard_form v (utf8_bytes v) /\
     length (utf8_bytes v)
     = (if v <? 0x80 then 1%nat else if v <? 0x800 then 2%nat
        else if v <? 0x10000 then 3%nat else 4%nat) /\
     v < 2 ^ payload_bits (length (utf8_bytes v)) /\
     (length (utf8_bytes v) = 1%nat \/
      2 ^ payload_bits (length (utf8_bytes v) - 1) <= v)) /\
  (forall (endian : UTF_ENDIAN) (u32str : u32string) (target : u8string),
     recognized endian -> Forall wf_utf32 u32str ->
     Forall (fun cur => u32_value endian cur < 0x110000) u32str ->
     to_u8string_u32 u32str endian target
     = (true, flat_map (fun cur => utf8_bytes (u32_value endian cur)) u32str)) /\
  (forall (endian : UTF_ENDIAN) (target : u8string),
     recognized endian ->
     map (fun cp => let r := to_u8string_u32 [u32_layout endian cp] endian target in
                    (fst r, length (snd r)))
         [0x7F; 0x80; 0x7FF; 0x800; 0xFFFF; 0x10000; 0x10FFFF]
     = [(true, 1%nat); (true, 2%nat); (true, 2%nat); (true, 3%nat); (true, 3%nat);
        (true, 4%nat); (true, 4%nat)]).
Proof.
  split; [| split].
  - intros endian cur rest target Hrec Hwf Hv v.
    pose proof (u32_value_bounds endian cur Hwf) as Hb. fold v in Hb, Hv.
    split.
    { rewrite convert_u32_cons by assumption. fold v.
      apply Z.ltb_lt in Hv. rewrite Hv. reflexivity. }
    assert (0 <= v < 2 ^ 21) as Hv21 by lia.
    split; [apply utf8_bytes_standard_form; exact Hv21|].
    split; [exact (utf8_bytes_length v)|].
    apply utf8_bytes_minimal. exact Hv21.
  - intros endian u32str target Hrec Hwf Hok. unfold to_u8string_u32.
    rewrite convert_u32_all by assumption. reflexivity.
  - intros endian target [-> | ->]; vm_compute; reflexivity.
Qed.

Lemma C4_u32_encoder_standard_minimal_form_witness :
  recognized UTF_ENDIAN_BIG_ENDIAN /\
  Forall wf_utf32 [mk_utf32 0x00 0x00 0x20 0xAC; mk_utf32 0x00 0x01 0xF6 0x00] /\
  Forall (fun cur => u32_value UTF_ENDIAN_BIG_ENDIAN cur < 0x110000)
    [mk_utf32 0x00 0x00 0x20 0xAC; mk_utf32 0x00 0x01 0xF6 0x00] /\
  convert_u32str_to_u8str_without_bom [mk_utf32 0x00 0x00 0x20 0xAC] UTF_ENDIAN_BIG_ENDIAN []
  = convert_u32str_to_u8str_without_bom [] UTF_ENDIAN_BIG_ENDIAN
      ([] ++ utf8_bytes (u32_value UTF_ENDIAN_BIG_ENDIAN (mk_utf32 0x00 0x00 0x20 0xAC))) /\
  to_u8string_u32 [mk_utf32 0x00 0x00 0x20 0xAC; mk_utf32 0x00 0x01 0xF6 0x00]
    UTF_ENDIAN_BIG_ENDIAN []
  = (true, flat_map (fun cur => utf8_bytes (u32_value UTF_ENDIAN_BIG_ENDIAN cur))
             [mk_utf32 0x00 0x00 0x20 0xAC; mk_utf32 0x00 0x01 0xF6 0x00]) /\
  map (fun cp => let r := to_u8string_u32 [u32_layout UTF_ENDIAN_BIG_ENDIAN cp]
                            UTF_ENDIAN_BIG_ENDIAN [] in
                 (fst r, length (snd r)))
      [0x7F; 0x80; 0x7FF; 0x800; 0xFFFF; 0x10000; 0x10FFFF]
  = [(true, 1%nat); (true, 2%nat); (true, 2%nat); (true, 3%nat); (true, 3%nat);
     (true, 4%nat); (true, 4%nat)].
Proof.
  assert (recognized UTF_ENDIAN_BIG_ENDIAN) as Hrec by (left; reflexivity).
  assert (wf_utf32 (mk_utf32 0x00 0x00 0x20 0xAC)) as Hwf1
    by (vm_compute; intuition discriminate).
  assert (wf_utf32 (mk_utf32 0x00 0x01 0xF6 0x00)) as Hwf2
    by (vm_compute; intuition discriminate).
  assert (u32_value UTF_ENDIAN_BIG_ENDIAN (mk_utf32 0x00 0x00 0x20 0xAC) < 0x110000) as Hv1
    by reflexivity.
  assert (u32_value UTF_ENDIAN_BIG_ENDIAN (mk_utf32 0x00 0x01 0xF6 0x00) < 0x110000) as Hv2
    by reflexivity.
  assert (Forall wf_utf32 [mk_utf32 0x00 0x00 0x20 0xAC; mk_utf32 0x00 0x01 0xF6 0x00])
    as Hwf by (apply Forall_cons; [assumption | apply Forall_cons; [assumption | apply Forall_nil]]).
  assert (Forall (fun cur => u32_value UTF_ENDIAN_BIG_ENDIAN cur < 0x110000)
            [mk_utf32 0x00 0x00 0x20 0xAC; mk_utf32 0x00 0x01 0xF6 0x00])
    as Hok by (apply Forall_cons; [assumption | apply Forall_cons; [assumption | apply Forall_nil]]).
  destruct C4_u32_encoder_standard_minimal_form as (Hstep & Hall & Hbounds).
  split; [exact Hrec|]. split; [exact Hwf|]. split; [exact Hok|].
  split; [exact (proj1 (Hstep UTF_ENDIAN_BIG_ENDIAN _ [] [] Hrec Hwf1 Hv1))|].
  split; [exact (Hall UTF_ENDIAN_BIG_ENDIAN _ [] Hrec Hwf Hok)|].
  exact (Hbounds UTF_ENDIAN_BIG_ENDIAN [] Hrec).
Defined.

(** C5.  On an input of bytes, the UTF-8 decoder fails exactly when the
    input is a run of whole sequences followed by a byte that, read as a lead
    byte, either has its high bit set and matches none of the three masks, or
    announces more bytes than remain.  The first kind of byte is exactly a
    byte of the form [10xxxxxx].  The bytes after a lead byte are not
    examined: every run of whole sequences is accepted, whatever follows each
    lead byte, and the overlong two-byte and four-byte forms of 0 and of the
    letter A decode to those values.  The single byte [0x80] is refused, and
    so is a three-byte lead byte with nothing after it. *)
Theorem C5_u8_decoder_failure_conditions :
  (forall (char_is_signed : bool) (u8str : u8string) (target : u32string)
          (endian : UTF_ENDIAN) (add_bom : bool),
     Forall is_u8 u8str ->
     (fst (to_u32string char_is_signed u8str target endian add_bom) = false <->
      exists before c rest,
        u8str = before ++ c :: rest /\ complete_sequences before /\
        (stray_lead c \/ truncated_sequence c rest))) /\
  (forall c, is_u8 c -> (stray_lead c <-> Z.land c 0xC0 = 0x80)) /\
  (forall (char_is_signed : bool) (u8str : u8string) (target : u32string)
          (endian : UTF_ENDIAN) (add_bom : bool),
     Forall is_u8 u8str -> complete_sequences u8str ->
     fst (to_u32string char_is_signed u8str target endian add_bom) = true) /\
  (forall (char_is_signed : bool) (target : u32string) (endian : UTF_ENDIAN),
     to_u32string char_is_signed [0xC0; 0x80] target endian false
     = (true, [u32_layout endian 0]) /\
     to_u32string char_is_signed [0xF0; 0x80; 0x81; 0x81] target endian false
     = (true, [u32_layout endian 0x41]) /\
     fst (to_u32string char_is_signed [0x80] target endian false) = false) /\
  (forall (char_is_signed : bool) (target : u32string) (endian : UTF_ENDIAN)
          (add_bom : bool) (c : Z),
     is_u8 c -> sequence_length c = Some 3%nat ->
     fst (to_u32string char_is_signed [c] target endian add_bom) = false).
Proof.
  split; [| split; [| split; [| split]]].
  - intros sg u8str target endian add_bom Hall.
    rewrite to_u32string_decoder. apply decoder_fails_iff. assumption.
  - apply stray_lead_pattern.
  - intros sg u8str target endian add_bom Hall Hcomplete.
    rewrite to_u32string_decoder. apply decoder_accepts_complete; assumption.
  - intros sg target endian. destruct sg, endian; vm_compute; repeat split; reflexivity.
  - intros sg target endian add_bom c Hc Hn.
    rewrite to_u32string_decoder, decoder_cons by (assumption || constructor).
    rewrite Hn. reflexivity.
Qed.

Lemma C5_u8_decoder_failure_conditions_witness :
  Forall is_u8 [0x41; 0xC3; 0x28; 0xE2; 0x82] /\
  complete_sequences [0x41; 0xC3; 0x28] /\
  truncated_sequence 0xE2 [0x82] /\
  fst (to_u32string true [0x41; 0xC3; 0x28; 0xE2; 0x82] [] UTF_ENDIAN_LITTLE_ENDIAN false)
  = false /\
  fst (to_u32string true [0x41; 0xC3; 0x28] [] UTF_ENDIAN_LITTLE_ENDIAN false) = true /\
  (stray_lead 0x80 <-> Z.land 0x80 0xC0 = 0x80) /\
  fst (to_u32string true [0xE2] [] UTF_ENDIAN_LITTLE_ENDIAN false) = false.
Proof.
  assert (forall c, 0 <= c < 256 -> is_u8 c) as Hu8 by (intros c Hc; exact Hc).
  assert (Forall is_u8 [0x41; 0xC3; 0x28; 0xE2; 0x82]) as Hall
    by (repeat constructor; apply Hu8; lia).
  assert (Forall is_u8 [0x41; 0xC3; 0x28]) as Hall'
    by (repeat constructor; apply Hu8; lia).
  assert (complete_sequences [0x41; 0xC3; 0x28]) as Hcomplete.
  { apply (complete_cons 0x41 1 [] [0xC3; 0x28]); [reflexivity | reflexivity |].
    apply (complete_cons 0xC3 2 [0x28] []); [reflexivity | reflexivity | constructor]. }
  assert (truncated_sequence 0xE2 [0x82]) as Htrunc.
  { exists 3%nat. split; [reflexivity | cbn; lia]. }
  destruct C5_u8_decoder_failure_conditions as (Hiff & Hpat & Hacc & _ & Hlone).
  split; [exact Hall|]. split; [exact Hcomplete|]. split; [exact Htrunc|].
  split.
  { apply (proj2 (Hiff true _ [] UTF_ENDIAN_LITTLE_ENDIAN false Hall)).
    exists [0x41; 0xC3; 0x28], 0xE2, [0x82].
    split; [reflexivity | split; [exact Hcomplete | right; exact Htrunc]]. }
  split; [exact (Hacc true _ [] UTF_ENDIAN_LITTLE_ENDIAN false Hall' Hcomplete)|].
  split; [exact (Hpat 0x80 (Hu8 0x80 ltac:(lia)))|].
  exact (Hlone true [] UTF_ENDIAN_LITTLE_ENDIAN false 0xE2 (Hu8 0xE2 ltac:(lia)) eq_refl).
Defined.

(** C6.  When the UTF-32 encoder meets a value of [0x110000] or more after
    elements that are all below it, it returns failure at once, and the
    output then holds exactly the UTF-8 bytes of the elements before the
    failing one, which are the bytes a call on those elements alone returns.
    With a byte order that is neither member it fails on the first element
    and the output is empty.  In both cases what the output held before the
    call is gone. *)
Theorem C6_u32_encoder_fail_fast_output :
  (forall (endian : UTF_ENDIAN) (before : u32string) (cur : utf32_character)
          (after : u32string) (target : u8string),
     recognized endian -> Forall wf_utf32 before -> wf_utf32 cur ->
     Forall (fun c => u32_value endian c < 0x110000) before ->
     0x110000 <= u32_value endian cur ->
     to_u8string_u32 (before ++ cur :: after) endian target
     = (false, flat_map (fun c => utf8_bytes (u32_value endian c)) before) /\
     to_u8string_u32 before endian target
     = (true, flat_map (fun c => utf8_bytes (u32_value endian c)) before)) /\
  (forall (cur : utf32_character) (after : u32string) (target : u8string),
     to_u8string_u32 (cur :: after) UTF_ENDIAN_UNRECOGNIZED target = (false, [])).
Proof.
  split.
  - intros endian before cur after target Hrec Hwf Hcur Hok Hbad.
    unfold to_u8string_u32. split.
    + rewrite convert_u32_stops by assumption. reflexivity.
    + rewrite convert_u32_all by assumption. reflexivity.
  - intros cur after target. reflexivity.
Qed.

Lemma C6_u32_encoder_fail_fast_output_witness :
  recognized UTF_ENDIAN_LITTLE_ENDIAN /\
  Forall wf_utf32 [mk_utf32 0x41 0x00 0x00 0x00; mk_utf32 0xAC 0x20 0x00 0x00] /\
  wf_utf32 (mk_utf32 0x00 0x00 0x11 0x00) /\
  Forall (fun c => u32_value UTF_ENDIAN_LITTLE_ENDIAN c < 0x110000)
    [mk_utf32 0x41 0x00 0x00 0x00; mk_utf32 0xAC 0x20 0x00 0x00] /\
  0x110000 <= u32_value UTF_ENDIAN_LITTLE_ENDIAN (mk_utf32 0x00 0x00 0x11 0x00) /\
  to_u8string_u32
    ([mk_utf32 0x41 0x00 0x00 0x00; mk_utf32 0xAC 0x20 0x00 0x00]
       ++ mk_utf32 0x00 0x00 0x11 0x00 :: [mk_utf32 0x42 0x00 0x00 0x00])
    UTF_ENDIAN_LITTLE_ENDIAN [0x99]
  = (false, flat_map (fun c => utf8_bytes (u32_value UTF_ENDIAN_LITTLE_ENDIAN c))
              [mk_utf32 0x41 0x00 0x00 0x00; mk_utf32 0xAC 0x20 0x00 0x00]).
Proof.
  assert (recognized UTF_ENDIAN_LITTLE_ENDIAN) as Hrec by (right; reflexivity).
  assert (wf_utf32 (mk_utf32 0x41 0x00 0x00 0x00)) as Hwf1
    by (vm_compute; intuition discriminate).
  assert (wf_utf32 (mk_utf32 0xAC 0x20 0x00 0x00)) as Hwf2
    by (vm_compute; intuition discriminate).
  assert (wf_utf32 (mk_utf32 0x00 0x00 0x11 0x00)) as Hcur
    by (vm_compute; intuition discriminate).
  assert (Forall wf_utf32 [mk_utf32 0x41 0x00 0x00 0x00; mk_utf32 0xAC 0x20 0x00 0x00])
    as Hwf by (apply Forall_cons; [assumption | apply Forall_cons; [assumption | apply Forall_nil]]).
  assert (Forall (fun c => u32_value UTF_ENDIAN_LITTLE_ENDIAN c < 0x110000)
            [mk_utf32 0x41 0x00 0x00 0x00; mk_utf32 0xAC 0x20 0x00 0x00])
    as Hok by (apply Forall_cons; [reflexivity | apply Forall_cons; [reflexivity | apply Forall_nil]]).
  assert (0x110000 <= u32_value UTF_ENDIAN_LITTLE_ENDIAN (mk_utf32 0x00 0x00 0x11 0x00))
    as Hbad by (vm_compute; discriminate).
  repeat (split; [assumption|]).
  exact (proj1 (proj1 C6_u32_encoder_fail_fast_output UTF_ENDIAN_LITTLE_ENDIAN _ _
                  [mk_utf32 0x42 0x00 0x00 0x00] [0x99] Hrec Hwf Hcur Hok Hbad)).
Defined.

(** C7.  In the UTF-16 encoder a lead surrogate followed by a trail
    surrogate gives the code point
    [0x10000 + ((lead - 0xD800) << 10) + (trail - 0xDC00)], which lies in
    [[0x10000, 0x10FFFF]] and is written as its four-byte UTF-8 form; the
    conversion goes on with the units after the two.  The units 0xD83D,
    0xDE00 in either byte order give the four bytes of U+1F600.  A lead
    surrogate that is the last unit of the buffer makes the call fail, with
    the output holding what the units before it gave. *)
Theorem C7_u16_surrogate_pair :
  (forall (endian : UTF_ENDIAN) (cur cur' : utf16_character) (rest : u16string)
          (target : u8string),
     recognized endian -> wf_utf16 cur -> wf_utf16 cur' ->
     0xD800 <= u16_value endian cur < 0xDC00 ->
     0xDC00 <= u16_value endian cur' < 0xE000 ->
     let codepoint :=
       0x10000 + Z.shiftl (u16_value endian cur - 0xD800) 10
       + (u16_value endian cur' - 0xDC00) in
     convert_u16str_to_u8str_without_bom (cur :: cur' :: rest) endian target
     = convert_u16str_to_u8str_without_bom rest endian (target ++ utf8_bytes codepoint) /\
     length (utf8_bytes codepoint) = 4%nat /\
     0x10000 <= codepoint <= 0x10FFFF) /\
  (forall (endian : UTF_ENDIAN) (target : u8string),
     recognized endian ->
     to_u8string_u16 [u16_layout endian 0xD83D; u16_layout endian 0xDE00] endian target
     = Some (true, [0xF0; 0x9F; 0x98; 0x80]) /\
     utf8_bytes 0x1F600 = [0xF0; 0x9F; 0x98; 0x80]) /\
  (forall (endian : UTF_ENDIAN) (before : u16string) (cur : utf16_character)
          (target out : u8string),
     recognized endian -> Forall wf_utf16 before -> wf_utf16 cur ->
     to_u8string_u16 before endian target = Some (true, out) ->
     0xD800 <= u16_value endian cur < 0xDC00 ->
     to_u8string_u16 (before ++ [cur]) endian target = Some (false, out)).
Proof.
  split; [| split].
  - intros endian cur cur' rest target Hrec Hwf Hwf' Hlead Htrail codepoint.
    assert (codepoint = assembled_code_point (u16_value endian cur) (u16_value endian cur'))
      as Hcp by (symmetry; apply assembled_code_point_pair; assumption).
    assert (0x10000 <= codepoint <= 0x10FFFF) as Hrange.
    { unfold codepoint. rewrite Z.shiftl_mul_pow2 by lia. lia. }
    split; [| split; [| exact Hrange]].
    + rewrite convert_u16_lead by assumption.
      replace (_ <? 0xdc00) with false by (symmetry; apply Z.ltb_ge; lia).
      rewrite Hcp. reflexivity.
    + rewrite utf8_bytes_length.
      replace (_ <? 2 ^ 7) with false by (symmetry; apply Z.ltb_ge; lia).
      replace (_ <? 2 ^ 11) with false by (symmetry; apply Z.ltb_ge; lia).
      replace (_ <? 2 ^ 16) with false by (symmetry; apply Z.ltb_ge; lia).
      reflexivity.
  - intros endian target [-> | ->]; split; vm_compute; reflexivity.
  - intros endian before cur target out Hrec Hwf Hcur Hrun Hlead.
    rewrite (to_u8string_u16_app endian before [cur] target out) by assumption.
    apply convert_u16_lone_lead; assumption.
Qed.

Lemma C7_u16_surrogate_pair_witness :
  recognized UTF_ENDIAN_LITTLE_ENDIAN /\
  wf_utf16 (mk_utf16 0x3D 0xD8) /\ wf_utf16 (mk_utf16 0x00 0xDE) /\
  0xD800 <= u16_value UTF_ENDIAN_LITTLE_ENDIAN (mk_utf16 0x3D 0xD8) < 0xDC00 /\
  0xDC00 <= u16_value UTF_ENDIAN_LITTLE_ENDIAN (mk_utf16 0x00 0xDE) < 0xE000 /\
  Forall wf_utf16 [mk_utf16 0x41 0x00] /\
  to_u8string_u16 [mk_utf16 0x41 0x00] UTF_ENDIAN_LITTLE_ENDIAN [] = Some (true, [0x41]) /\
  convert_u16str_to_u8str_without_bom [mk_utf16 0x3D 0xD8; mk_utf16 0x00 0xDE]
    UTF_ENDIAN_LITTLE_ENDIAN []
  = convert_u16str_to_u8str_without_bom [] UTF_ENDIAN_LITTLE_ENDIAN
      ([] ++ utf8_bytes
         (0x10000
          + Z.shiftl (u16_value UTF_ENDIAN_LITTLE_ENDIAN (mk_utf16 0x3D 0xD8) - 0xD800) 10
          + (u16_value UTF_ENDIAN_LITTLE_ENDIAN (mk_utf16 0x00 0xDE) - 0xDC00))) /\
  to_u8string_u16 [u16_layout UTF_ENDIAN_LITTLE_ENDIAN 0xD83D;
                   u16_layout UTF_ENDIAN_LITTLE_ENDIAN 0xDE00] UTF_ENDIAN_LITTLE_ENDIAN []
  = Some (true, [0xF0; 0x9F; 0x98; 0x80]) /\
  to_u8string_u16 ([mk_utf16 0x41 0x00] ++ [mk_utf16 0x3D 0xD8]) UTF_ENDIAN_LITTLE_ENDIAN []
  = Some (false, [0x41]).
Proof.
  assert (recognized UTF_ENDIAN_LITTLE_ENDIAN) as Hrec by (right; reflexivity).
  assert (wf_utf16 (mk_utf16 0x3D 0xD8)) as Hwf by (vm_compute; intuition discriminate).
  assert (wf_utf16 (mk_utf16 0x00 0xDE)) as Hwf' by (vm_compute; intuition discriminate).
  assert (0xD800 <= u16_value UTF_ENDIAN_LITTLE_ENDIAN (mk_utf16 0x3D 0xD8) < 0xDC00)
    as Hlead by (vm_compute; intuition discriminate).
  assert (0xDC00 <= u16_value UTF_ENDIAN_LITTLE_ENDIAN (mk_utf16 0x00 0xDE) < 0xE000)
    as Htrail by (vm_compute; intuition discriminate).
  assert (Forall wf_utf16 [mk_utf16 0x41 0x00]) as Hbefore
    by (apply Forall_cons; [vm_compute; intuition discriminate | apply Forall_nil]).
  assert (to_u8string_u16 [mk_utf16 0x41 0x00] UTF_ENDIAN_LITTLE_ENDIAN []
          = Some (true, [0x41])) as Hrun by reflexivity.
  destruct C7_u16_surrogate_pair as (Hpair & Hface & Hlone).
  repeat (split; [assumption|]).
  split; [exact (proj1 (Hpair UTF_ENDIAN_LITTLE_ENDIAN _ _ [] [] Hrec Hwf Hwf' Hlead Htrail))|].
  split; [exact (proj1 (Hface UTF_ENDIAN_LITTLE_ENDIAN [] Hrec))|].
  exact (Hlone UTF_ENDIAN_LITTLE_ENDIAN _ _ [] _ Hrec Hbefore Hwf Hrun Hlead).
Defined.

(** C8.  In the UTF-16 encoder, a unit with a value in [[0xDC00, 0xE000)]
    that the cursor reaches, the units before it having been converted on
    their own, does not make the call fail: the three-byte UTF-8 form of its
    value is appended and the conversion goes on with the units after it. *)
Theorem C8_u16_unpaired_trail_passes :
  forall (endian : UTF_ENDIAN) (before : u16string) (cur : utf16_character)
         (rest : u16string) (target out : u8string),
    recognized endian -> Forall wf_utf16 before -> wf_utf16 cur ->
    to_u8string_u16 before endian target = Some (true, out) ->
    0xDC00 <= u16_value endian cur < 0xE000 ->
    let v := u16_value endian cur in
    to_u8string_u16 (before ++ cur :: rest) endian target
    = convert_u16str_to_u8str_without_bom rest endian
        (out ++ [0xED; 0x80 + v / 2 ^ 6 mod 2 ^ 6; 0x80 + v mod 2 ^ 6]) /\
    to_u8string_u16 (before ++ [cur]) endian target
    = Some (true, out ++ [0xED; 0x80 + v / 2 ^ 6 mod 2 ^ 6; 0x80 + v mod 2 ^ 6]).
Proof.
  intros endian before cur rest target out Hrec Hwf Hcur Hrun Htrail v.
  assert (forall rest',
            to_u8string_u16 (before ++ cur :: rest') endian target
            = convert_u16str_to_u8str_without_bom rest' endian
                (out ++ [0xED; 0x80 + v / 2 ^ 6 mod 2 ^ 6; 0x80 + v mod 2 ^ 6])) as Hstep.
  { intros rest'.
    rewrite (to_u8string_u16_app endian before (cur :: rest') target out) by assumption.
    rewrite convert_u16_plain by (assumption || lia).
    fold v. rewrite utf8_bytes_surrogate_band by lia. reflexivity. }
  split; [apply Hstep | rewrite Hstep; reflexivity].
Qed.

Lemma C8_u16_unpaired_trail_passes_witness :
  recognized UTF_ENDIAN_BIG_ENDIAN /\
  Forall wf_utf16 [mk_utf16 0x00 0x41] /\ wf_utf16 (mk_utf16 0xDC 0x00) /\
  to_u8string_u16 [mk_utf16 0x00 0x41] UTF_ENDIAN_BIG_ENDIAN [] = Some (true, [0x41]) /\
  0xDC00 <= u16_value UTF_ENDIAN_BIG_ENDIAN (mk_utf16 0xDC 0x00) < 0xE000 /\
  to_u8string_u16 ([mk_utf16 0x00 0x41] ++ [mk_utf16 0xDC 0x00]) UTF_ENDIAN_BIG_ENDIAN []
  = Some (true, [0x41] ++ [0xED; 0xB0; 0x80]).
Proof.
  assert (recognized UTF_ENDIAN_BIG_ENDIAN) as Hrec by (left; reflexivity).
  assert (Forall wf_utf16 [mk_utf16 0x00 0x41]) as Hbefore
    by (apply Forall_cons; [vm_compute; intuition discriminate | apply Forall_nil]).
  assert (wf_utf16 (mk_utf16 0xDC 0x00)) as Hcur by (vm_compute; intuition discriminate).
  assert (to_u8string_u16 [mk_utf16 0x00 0x41] UTF_ENDIAN_BIG_ENDIAN []
          = Some (true, [0x41])) as Hrun by reflexivity.
  assert (0xDC00 <= u16_value UTF_ENDIAN_BIG_ENDIAN (mk_utf16 0xDC 0x00) < 0xE000)
    as Htrail by (vm_compute; intuition discriminate).
  repeat (split; [assumption|]).
  exact (proj2 (C8_u16_unpaired_trail_passes UTF_ENDIAN_BIG_ENDIAN _ _ [] [] _
                  Hrec Hbefore Hcur Hrun Htrail)).
Defined.

(** C9.  The UTF-32 encoder does not refuse surrogates: a value in
    [[0xD800, 0xDFFF]], read in a recognized byte order, is written as its
    three-byte UTF-8 form and the conversion goes on; such a value alone is
    converted successfully.  Every value of [0x110000] or more is refused. *)
Theorem C9_u32_surrogates_pass_large_values_refused :
  (forall (endian : UTF_ENDIAN) (cur : utf32_character) (rest : u32string)
          (target : u8string),
     recognized endian -> wf_utf32 cur ->
     0xD800 <= u32_value endian cur <= 0xDFFF ->
     let v := u32_value endian cur in
     convert_u32str_to_u8str_without_bom (cur :: rest) endian target
     = convert_u32str_to_u8str_without_bom rest endian
         (target ++ [0xED; 0x80 + v / 2 ^ 6 mod 2 ^ 6; 0x80 + v mod 2 ^ 6]) /\
     to_u8string_u32 [cur] endian target
     = (true, [0xED; 0x80 + v / 2 ^ 6 mod 2 ^ 6; 0x80 + v mod 2 ^ 6])) /\
  (forall (endian : UTF_ENDIAN) (cur : utf32_character) (rest : u32string)
          (target : u8string),
     recognized endian -> wf_utf32 cur ->
     0x110000 <= u32_value endian cur ->
     convert_u32str_to_u8str_without_bom (cur :: rest) endian target = (false, target) /\
     to_u8string_u32 (cur :: rest) endian target = (false, [])).
Proof.
  split.
  - intros endian cur rest target Hrec Hwf Hband v.
    assert (forall rest' target',
              convert_u32str_to_u8str_without_bom (cur :: rest') endian target'
              = convert_u32str_to_u8str_without_bom rest' endian
                  (target' ++ [0xED; 0x80 + v / 2 ^ 6 mod 2 ^ 6; 0x80 + v mod 2 ^ 6]))
      as Hstep.
    { intros rest' target'. rewrite convert_u32_cons by assumption. fold v.
      replace (v <? 0x110000) with true by (symmetry; apply Z.ltb_lt; unfold v; lia).
      rewrite utf8_bytes_surrogate_band by (unfold v; lia). reflexivity. }
    split; [apply Hstep | unfold to_u8string_u32; rewrite Hstep; reflexivity].
  - intros endian cur rest target Hrec Hwf Hbig.
    assert (forall target',
              convert_u32str_to_u8str_without_bom (cur :: rest) endian target'
              = (false, target')) as Hstop.
    { intros target'. rewrite convert_u32_cons by assumption.
      replace (_ <? 0x110000) with false by (symmetry; apply Z.ltb_ge; lia).
      reflexivity. }
    split; [apply Hstop | unfold to_u8string_u32; apply Hstop].
Qed.

Lemma C9_u32_surrogates_pass_large_values_refused_witness :
  recognized UTF_ENDIAN_BIG_ENDIAN /\
  wf_utf32 (mk_utf32 0x00 0x00 0xD8 0x3D) /\
  0xD800 <= u32_value UTF_ENDIAN_BIG_ENDIAN (mk_utf32 0x00 0x00 0xD8 0x3D) <= 0xDFFF /\
  wf_utf32 (mk_utf32 0xFF 0xFF 0xFF 0xFF) /\
  0x110000 <= u32_value UTF_ENDIAN_BIG_ENDIAN (mk_utf32 0xFF 0xFF 0xFF 0xFF) /\
  to_u8string_u32 [mk_utf32 0x00 0x00 0xD8 0x3D] UTF_ENDIAN_BIG_ENDIAN []
  = (true, [0xED; 0xA0; 0xBD]) /\
  to_u8string_u32 [mk_utf32 0xFF 0xFF 0xFF 0xFF] UTF_ENDIAN_BIG_ENDIAN [] = (false, []).
Proof.
  assert (recognized UTF_ENDIAN_BIG_ENDIAN) as Hrec by (left; reflexivity).
  assert (wf_utf32 (mk_utf32 0x00 0x00 0xD8 0x3D)) as Hwf
    by (vm_compute; intuition discriminate).
  assert (0xD800 <= u32_value UTF_ENDIAN_BIG_ENDIAN (mk_utf32 0x00 0x00 0xD8 0x3D) <= 0xDFFF)
    as Hband by (vm_compute; intuition discriminate).
  assert (wf_utf32 (mk_utf32 0xFF 0xFF 0xFF 0xFF)) as Hwf'
    by (vm_compute; intuition discriminate).
  assert (0x110000 <= u32_value UTF_ENDIAN_BIG_ENDIAN (mk_utf32 0xFF 0xFF 0xFF 0xFF))
    as Hbig by (vm_compute; discriminate).
  destruct C9_u32_surrogates_pass_large_values_refused as (Hpass & Hrefuse).
  repeat (split; [assumption|]).
  split; [exact (proj2 (Hpass UTF_ENDIAN_BIG_ENDIAN _ [] [] Hrec Hwf Hband))|].
  exact (proj2 (Hrefuse UTF_ENDIAN_BIG_ENDIAN _ [] [] Hrec Hwf' Hbig)).
Defined.

(** C10.  The UTF-8 decoder produces values outside the Unicode range: the
    bytes 0xF7 0xBF 0xBF 0xBF, whose first byte is classified as the lead of
    a four-byte sequence, decode successfully, in either byte order, to the
    one unit of value [0x1FFFFF], which is above [0x10FFFF].  In general four
    bytes whose first is classified so decode to the unit holding the three
    low bits of the first byte and the six low bits of each other byte, a
    value that is at most [0x1FFFFF] and is not checked further. *)
Theorem C10_u8_decoder_output_above_unicode_range :
  (forall (char_is_signed : bool) (target : u32string),
     sequence_length 0xF7 = Some 4%nat /\
     to_u32string char_is_signed [0xF7; 0xBF; 0xBF; 0xBF] target
       UTF_ENDIAN_LITTLE_ENDIAN false
     = (true, [mk_utf32 0xFF 0xFF 0x1F 0x00]) /\
     u32_value UTF_ENDIAN_LITTLE_ENDIAN (mk_utf32 0xFF 0xFF 0x1F 0x00) = 0x1FFFFF /\
     to_u32string char_is_signed [0xF7; 0xBF; 0xBF; 0xBF] target
       UTF_ENDIAN_BIG_ENDIAN false
     = (true, [mk_utf32 0x00 0x1F 0xFF 0xFF]) /\
     u32_value UTF_ENDIAN_BIG_ENDIAN (mk_utf32 0x00 0x1F 0xFF 0xFF) = 0x1FFFFF /\
     0x10FFFF < 0x1FFFFF) /\
  (forall (char_is_signed : bool) (endian : UTF_ENDIAN) (c0 c1 c2 c3 : Z)
          (target : u32string),
     is_u8 c0 -> is_u8 c1 -> is_u8 c2 -> is_u8 c3 ->
     sequence_length c0 = Some 4%nat ->
     to_u32string char_is_signed [c0; c1; c2; c3] target endian false
     = (true, [u32_layout endian (utf8_payload [c0; c1; c2; c3])]) /\
     0 <= utf8_payload [c0; c1; c2; c3] <= 0x1FFFFF).
Proof.
  split.
  - intros sg target. destruct sg; vm_compute; repeat split; reflexivity.
  - intros sg endian c0 c1 c2 c3 target H0 H1 H2 H3 Hn. split.
    + rewrite to_u32string_decoder.
      apply (decoder_one_sequence sg endian c0 [c1; c2; c3] []);
        [assumption | repeat (apply Forall_cons; [assumption|]); apply Forall_nil | exact Hn].
    + unfold utf8_payload, is_u8 in *. Z.div_mod_to_equations; lia.
Qed.

Lemma C10_u8_decoder_output_above_unicode_range_witness :
  is_u8 0xF4 /\ is_u8 0x90 /\ is_u8 0x80 /\ is_u8 0x80 /\
  sequence_length 0xF4 = Some 4%nat /\
  to_u32string false [0xF4; 0x90; 0x80; 0x80] [] UTF_ENDIAN_BIG_ENDIAN false
  = (true, [u32_layout UTF_ENDIAN_BIG_ENDIAN (utf8_payload [0xF4; 0x90; 0x80; 0x80])]) /\
  0 <= utf8_payload [0xF4; 0x90; 0x80; 0x80] <= 0x1FFFFF.
Proof.
  assert (is_u8 0xF4) as H0 by (vm_compute; intuition discriminate).
  assert (is_u8 0x90) as H1 by (vm_compute; intuition discriminate).
  assert (is_u8 0x80) as H2 by (vm_compute; intuition discriminate).
  assert (sequence_length 0xF4 = Some 4%nat) as Hn by reflexivity.
  repeat (split; [assumption|]).
  exact (proj2 C10_u8_decoder_output_above_unicode_range false UTF_ENDIAN_BIG_ENDIAN
           0xF4 0x90 0x80 0x80 [] H0 H1 H2 H2 Hn).
Defined.

(** * Further properties *)

(** ** The UTF-32 encoder on whole buffers *)

(** What a call appends does not depend on what the target already holds. *)
Lemma convert_u32_target u32str endian :
  forall target,
    convert_u32str_to_u8str_without_bom u32str endian target =
      (fst (convert_u32str_to_u8str_without_bom u32str endian []),
       target ++ snd (convert_u32str_to_u8str_without_bom u32str endian [])).
Proof.
  induction u32str as [|cur rest IH]; intros target.
  - cbn. rewrite app_nil_r. reflexivity.
  - cbn [convert_u32str_to_u8str_without_bom].
    destruct (get_u32_endian_value cur endian) as [value|];
      [| cbn; rewrite app_nil_r; reflexivity].
    repeat match goal with
           | |- context [if ?b then _ else _] => destruct b
           end;
      try (cbn; rewrite app_nil_r; reflexivity);
      unfold push_back; rewrite IH; symmetry; rewrite IH; cbn [fst snd];
      rewrite <- ?app_assoc; reflexivity.
Qed.

Lemma convert_u32_app before after endian target :
  convert_u32str_to_u8str_without_bom (before ++ after) endian target =
    if fst (convert_u32str_to_u8str_without_bom before endian target)
    then convert_u32str_to_u8str_without_bom after endian
           (snd (convert_u32str_to_u8str_without_bom before endian target))
    else convert_u32str_to_u8str_without_bom before endian target.
Proof.
  revert target. induction before as [|cur rest IH]; intros target.
  - reflexivity.
  - cbn [app convert_u32str_to_u8str_without_bom].
    destruct (get_u32_endian_value cur endian) as [value|]; [|reflexivity].
    repeat match goal with
           | |- context [if (_ <? _) then _ else _] => destruct (_ <? _)
           end; try apply IH; reflexivity.
Qed.

Lemma convert_u32_success u32str endian target out :
  recognized endian -> Forall wf_utf32 u32str ->
  convert_u32str_to_u8str_without_bom u32str endian target = (true, out) ->
  Forall (fun cur => u32_value endian cur < 0x110000) u32str.
Proof.
  intros Hrec Hwf. revert target.
  induction Hwf as [|cur rest Hcur Hrest IH]; intros target Hrun; [constructor|].
  rewrite convert_u32_cons in Hrun by assumption.
  destruct (Z.ltb_spec (u32_value endian cur) 0x110000) as [Hv|Hv]; [|discriminate].
  constructor; [exact Hv | exact (IH _ Hrun)].
Qed.

Lemma u32_layout_value endian cur :
  recognized endian -> wf_utf32 cur -> u32_layout endian (u32_value endian cur) = cur.
Proof.
  intros Hrec (H0 & H1 & H2 & H3). unfold is_u8 in *.
  destruct cur as [a b c d]. cbn [v32_0 v32_1 v32_2 v32_3] in *.
  destruct Hrec as [-> | ->]; cbn [u32_layout u32_value v32_0 v32_1 v32_2 v32_3];
    f_equal; Z.div_mod_to_equations; lia.
Qed.

Lemma u16_layout_value endian src :
  recognized endian -> wf_utf16 src -> u16_layout endian (u16_value endian src) = src.
Proof.
  intros Hrec (H0 & H1). unfold is_u8 in *.
  destruct src as [a b]. cbn [v16_0 v16_1] in *.
  destruct Hrec as [-> | ->]; cbn [u16_layout u16_value v16_0 v16_1];
    f_equal; Z.div_mod_to_equations; lia.
Qed.

Lemma utf8_bytes_is_u8 v : 0 <= v < 2 ^ 21 -> Forall is_u8 (utf8_bytes v).
Proof.
  intros Hv. destruct (utf8_bytes_sequence v Hv) as (c & tail & -> & Hc & Htail & _).
  constructor; assumption.
Qed.

Lemma flat_map_utf8_bytes_is_u8 vs :
  Forall (fun v => 0 <= v < 2 ^ 21) vs -> Forall is_u8 (flat_map utf8_bytes vs).
Proof.
  induction 1 as [|v vs Hv Hvs IH]; cbn [flat_map]; [constructor|].
  apply Forall_app. split; [apply utf8_bytes_is_u8; exact Hv | exact IH].
Qed.

(** The decoder on the UTF-8 form of a value, followed by more input. *)
Lemma decoder_utf8_bytes_app sg endian v rest target :
  0 <= v < 2 ^ 21 -> Forall is_u8 rest ->
  decoder_for sg endian (utf8_bytes v ++ rest) target =
    decoder_for sg endian rest (target ++ [u32_layout endian v]).
Proof.
  intros Hv Hrest.
  destruct (utf8_bytes_sequence v Hv) as (c & tail & -> & Hc & Htail & Hn & Hpay).
  cbn [app]. rewrite decoder_cons by (assumption || (apply Forall_app; split; assumption)).
  rewrite Hn. cbn [Nat.sub]. rewrite Nat.sub_0_r.
  replace (length (tail ++ rest) <? length tail)%nat with false
    by (symmetry; apply Nat.ltb_ge; rewrite length_app; lia).
  rewrite skipn_app, firstn_app, Nat.sub_diag, skipn_all, firstn_all.
  cbn [skipn firstn app]. rewrite app_nil_r, Hpay. reflexivity.
Qed.

Lemma decoder_flat_map_utf8_bytes sg endian vs target :
  Forall (fun v => 0 <= v < 2 ^ 21) vs ->
  decoder_for sg endian (flat_map utf8_bytes vs) target =
    (true, target ++ map (u32_layout endian) vs).
Proof.
  intros Hvs. revert target.
  induction Hvs as [|v vs Hv Hvs IH]; intros target; cbn [flat_map map].
  - rewrite app_nil_r. apply decoder_nil.
  - rewrite decoder_utf8_bytes_app
      by (assumption || (apply flat_map_utf8_bytes_is_u8; assumption)).
    rewrite IH, <- app_assoc. reflexivity.
Qed.

Lemma flat_map_utf8_values (f : utf32_character -> Z) u32str :
  flat_map (fun cur => utf8_bytes (f cur)) u32str = flat_map utf8_bytes (map f u32str).
Proof.
  induction u32str as [|cur rest IH]; cbn [flat_map map]; [reflexivity|].
  rewrite IH. reflexivity.
Qed.

Lemma map_layout_value endian u32str :
  recognized endian -> Forall wf_utf32 u32str ->
  map (u32_layout endian) (map (u32_value endian) u32str) = u32str.
Proof.
  intros Hrec. induction 1 as [|cur rest Hcur Hrest IH]; cbn [map]; [reflexivity|].
  rewrite u32_layout_value, IH by assumption. reflexivity.
Qed.

Lemma convert_u32_layouts endian vs target :
  recognized endian -> Forall (fun v => 0 <= v < 2 ^ 32) vs ->
  convert_u32str_to_u8str_without_bom (map (u32_layout endian) vs) endian target =
    convert_u32str_to_u8str_without_bom (map (u32_layout UTF_ENDIAN_BIG_ENDIAN) vs)
      UTF_ENDIAN_BIG_ENDIAN target.
Proof.
  intros Hrec Hvs. revert target.
  induction Hvs as [|v vs Hv Hvs IH]; intros target; cbn [map]; [reflexivity|].
  rewrite !convert_u32_cons by (try apply wf_u32_layout; (assumption || (left; reflexivity))).
  rewrite !u32_value_layout by assumption.
  destruct (v <? 0x110000); [apply IH | reflexivity].
Qed.

Lemma utf8_bytes_length_bounds v : (1 <= length (utf8_bytes v) <= 4)%nat.
Proof.
  rewrite utf8_bytes_length.
  destruct (v <? 2 ^ 7), (v <? 2 ^ 11), (v <? 2 ^ 16); lia.
Qed.

Lemma convert_u32_length endian u32str :
  recognized endian -> Forall wf_utf32 u32str ->
  forall target,
    (length (snd (convert_u32str_to_u8str_without_bom u32str endian target))
     <= length target + 4 * length u32str)%nat /\
    (fst (convert_u32str_to_u8str_without_bom u32str endian target) = true ->
     (length target + length u32str
      <= length (snd (convert_u32str_to_u8str_without_bom u32str endian target)))%nat).
Proof.
  intros Hrec. induction 1 as [|cur rest Hcur Hrest IH]; intros target.
  - cbn. lia.
  - rewrite convert_u32_cons by assumption.
    destruct (u32_value endian cur <? 0x110000).
    + destruct (IH (target ++ utf8_bytes (u32_value endian cur))) as [Hup Hlow].
      rewrite length_app in Hup, Hlow. cbn [length].
      pose proof (utf8_bytes_length_bounds (u32_value endian cur)) as Hb.
      split; [lia | intros Hok; specialize (Hlow Hok); lia].
    + cbn [fst snd length]. split; [lia | discriminate].
Qed.

(** X1.  Whatever the UTF-32 encoder converts successfully is decoded back
    to the very same buffer: for a buffer of units read in a recognized byte
    order, a successful conversion to UTF-8 followed by the decoding of the
    result for the same byte order, without a byte-order mark, succeeds and
    returns the buffer, surrogate values included. *)
Theorem X1_u32_encode_then_decode_whole_buffer :
  forall (char_is_signed : bool) (endian : UTF_ENDIAN) (u32str : u32string)
         (target u8str : u8string) (target' : u32string),
    recognized endian -> Forall wf_utf32 u32str ->
    to_u8string_u32 u32str endian target = (true, u8str) ->
    to_u32string char_is_signed u8str target' endian false = (true, u32str).
Proof.
  intros sg endian u32str target u8str target' Hrec Hwf Hrun.
  unfold to_u8string_u32 in Hrun.
  pose proof (convert_u32_success _ _ _ _ Hrec Hwf Hrun) as Hok.
  rewrite convert_u32_all in Hrun by assumption.
  injection Hrun as <-. cbn [app].
  rewrite to_u32string_decoder, flat_map_utf8_values.
  rewrite decoder_flat_map_utf8_bytes.
  - cbn [app]. rewrite map_layout_value by assumption. reflexivity.
  - apply Forall_map. apply Forall_forall. intros cur Hin.
    rewrite Forall_forall in Hwf, Hok.
    pose proof (u32_value_bounds endian cur (Hwf cur Hin)).
    specialize (Hok cur Hin). cbn beta in Hok. lia.
Qed.

Lemma X1_u32_encode_then_decode_whole_buffer_witness :
  recognized UTF_ENDIAN_LITTLE_ENDIAN /\
  Forall wf_utf32 [mk_utf32 0x41 0x00 0x00 0x00; mk_utf32 0x00 0xD8 0x00 0x00;
                   mk_utf32 0x00 0xF6 0x01 0x00] /\
  to_u8string_u32 [mk_utf32 0x41 0x00 0x00 0x00; mk_utf32 0x00 0xD8 0x00 0x00;
                   mk_utf32 0x00 0xF6 0x01 0x00] UTF_ENDIAN_LITTLE_ENDIAN []
  = (true, [0x41; 0xED; 0xA0; 0x80; 0xF0; 0x9F; 0x98; 0x80]) /\
  to_u32string true [0x41; 0xED; 0xA0; 0x80; 0xF0; 0x9F; 0x98; 0x80] []
    UTF_ENDIAN_LITTLE_ENDIAN false
  = (true, [mk_utf32 0x41 0x00 0x00 0x00; mk_utf32 0x00 0xD8 0x00 0x00;
            mk_utf32 0x00 0xF6 0x01 0x00]).
Proof.
  assert (recognized UTF_ENDIAN_LITTLE_ENDIAN) as Hrec by (right; reflexivity).
  assert (Forall wf_utf32 [mk_utf32 0x41 0x00 0x00 0x00; mk_utf32 0x00 0xD8 0x00 0x00;
                           mk_utf32 0x00 0xF6 0x01 0x00]) as Hwf
    by (repeat (apply Forall_cons; [vm_compute; intuition discriminate|]);
        apply Forall_nil).
  assert (to_u8string_u32 [mk_utf32 0x41 0x00 0x00 0x00; mk_utf32 0x00 0xD8 0x00 0x00;
                           mk_utf32 0x00 0xF6 0x01 0x00] UTF_ENDIAN_LITTLE_ENDIAN []
          = (true, [0x41; 0xED; 0xA0; 0x80; 0xF0; 0x9F; 0x98; 0x80])) as Hrun
    by reflexivity.
  split; [exact Hrec|]. split; [exact Hwf|]. split; [exact Hrun|].
  exact (X1_u32_encode_then_decode_whole_buffer true UTF_ENDIAN_LITTLE_ENDIAN _ [] _ []
           Hrec Hwf Hrun).
Defined.

(** X2.  The UTF-32 encoder works through a concatenation from left to
    right: if the first part is converted successfully, the result for the
    whole is the flag of the second part with the two outputs joined;
    otherwise it is the result for the first part alone.  This holds for
    every buffer and every byte order. *)
Theorem X2_u32_encoder_concatenation :
  forall (before after : u32string) (endian : UTF_ENDIAN) (target : u8string),
    to_u8string_u32 (before ++ after) endian target =
      if fst (to_u8string_u32 before endian target)
      then (fst (to_u8string_u32 after endian target),
            snd (to_u8string_u32 before endian target)
              ++ snd (to_u8string_u32 after endian target))
      else to_u8string_u32 before endian target.
Proof.
  intros before after endian target. unfold to_u8string_u32.
  rewrite convert_u32_app.
  destruct (fst (convert_u32str_to_u8str_without_bom before endian [])); [|reflexivity].
  apply convert_u32_target.
Qed.

(** X3.  The result of the UTF-32 encoder depends on the values of the
    units, not on the byte order they are stored in: a list of 32-bit values
    laid out big-endian and read big-endian gives the same flag and the same
    bytes as the list laid out little-endian and read little-endian, whether
    the conversion succeeds or stops at a value that is too large. *)
Theorem X3_u32_encoder_byte_order_independent :
  forall (vs : list Z) (target target' : u8string),
    Forall (fun v => 0 <= v < 2 ^ 32) vs ->
    to_u8string_u32 (map (u32_layout UTF_ENDIAN_BIG_ENDIAN) vs) UTF_ENDIAN_BIG_ENDIAN target
    = to_u8string_u32 (map (u32_layout UTF_ENDIAN_LITTLE_ENDIAN) vs)
        UTF_ENDIAN_LITTLE_ENDIAN target'.
Proof.
  intros vs target target' Hvs. unfold to_u8string_u32.
  symmetry. apply convert_u32_layouts; [right; reflexivity | exact Hvs].
Qed.

Lemma X3_u32_encoder_byte_order_independent_witness :
  Forall (fun v => 0 <= v < 2 ^ 32) [0x41; 0x20AC; 0x110000; 0x42] /\
  to_u8string_u32 (map (u32_layout UTF_ENDIAN_BIG_ENDIAN) [0x41; 0x20AC; 0x110000; 0x42])
    UTF_ENDIAN_BIG_ENDIAN []
  = to_u8string_u32 (map (u32_layout UTF_ENDIAN_LITTLE_ENDIAN) [0x41; 0x20AC; 0x110000; 0x42])
      UTF_ENDIAN_LITTLE_ENDIAN [0x99].
Proof.
  assert (Forall (fun v => 0 <= v < 2 ^ 32) [0x41; 0x20AC; 0x110000; 0x42]) as Hvs
    by (repeat (apply Forall_cons; [vm_compute; intuition discriminate|]);
        apply Forall_nil).
  split; [exact Hvs|].
  exact (X3_u32_encoder_byte_order_independent _ [] [0x99] Hvs).
Defined.

(** X4.  The UTF-32 encoder never writes more than four bytes per unit, and
    a successful conversion writes at least one byte per unit. *)
Theorem X4_u32_encoder_output_size :
  forall (endian : UTF_ENDIAN) (u32str : u32string) (target : u8string),
    recognized endian -> Forall wf_utf32 u32str ->
    (length (snd (to_u8string_u32 u32str endian target)) <= 4 * length u32str)%nat /\
    (fst (to_u8string_u32 u32str endian target) = true ->
     (length u32str <= length (snd (to_u8string_u32 u32str endian target)))%nat).
Proof.
  intros endian u32str target Hrec Hwf. unfold to_u8string_u32.
  exact (convert_u32_length endian u32str Hrec Hwf []).
Qed.

Lemma X4_u32_encoder_output_size_witness :
  recognized UTF_ENDIAN_BIG_ENDIAN /\
  Forall wf_utf32 [mk_utf32 0x00 0x01 0xF6 0x00; mk_utf32 0x00 0x00 0x00 0x41] /\
  (length (snd (to_u8string_u32 [mk_utf32 0x00 0x01 0xF6 0x00; mk_utf32 0x00 0x00 0x00 0x41]
                  UTF_ENDIAN_BIG_ENDIAN [])) <= 4 * 2)%nat.
Proof.
  assert (recognized UTF_ENDIAN_BIG_ENDIAN) as Hrec by (left; reflexivity).
  assert (Forall wf_utf32 [mk_utf32 0x00 0x01 0xF6 0x00; mk_utf32 0x00 0x00 0x00 0x41])
    as Hwf
    by (repeat (apply Forall_cons; [vm_compute; intuition discriminate|]);
        apply Forall_nil).
  split; [exact Hrec|]. split; [exact Hwf|].
  exact (proj1 (X4_u32_encoder_output_size UTF_ENDIAN_BIG_ENDIAN _ [] Hrec Hwf)).
Defined.

(** ** The decoder on whole inputs *)

Lemma Forall_firstn_skipn (P : Z -> Prop) n l :
  Forall P l -> Forall P (firstn n l) /\ Forall P (skipn n l).
Proof.
  intros Hl. rewrite <- (firstn_skipn n l) in Hl. apply Forall_app in Hl. exact Hl.
Qed.

(** Induction along the sequences the decoder reads. *)
Lemma decoder_induction (P : list Z -> Prop) :
  P [] ->
  (forall c r, is_u8 c -> Forall is_u8 r -> sequence_length c = None -> P (c :: r)) ->
  (forall c r n, is_u8 c -> Forall is_u8 r -> sequence_length c = Some n ->
                 (length r < n - 1)%nat -> P (c :: r)) ->
  (forall c r n, is_u8 c -> Forall is_u8 r -> sequence_length c = Some n ->
                 (n - 1 <= length r)%nat -> P (skipn (n - 1) r) -> P (c :: r)) ->
  forall u8str, Forall is_u8 u8str -> P u8str.
Proof.
  intros Hnil Hstray Hshort Hstep.
  assert (forall k u8str, (length u8str <= k)%nat -> Forall is_u8 u8str -> P u8str) as Hk.
  { induction k as [|k IH]; intros u8str Hlen Hall.
    - destruct u8str; [exact Hnil | cbn in Hlen; lia].
    - destruct u8str as [|c r]; [exact Hnil|].
      inversion Hall as [|? ? Hc Hr]; subst. cbn [length] in Hlen.
      destruct (sequence_length c) as [n|] eqn:Hn; [| apply Hstray; assumption].
      destruct (Nat.lt_ge_cases (length r) (n - 1)) as [Hlt|Hge].
      + apply (Hshort c r n); assumption.
      + apply (Hstep c r n); try assumption.
        apply IH; [rewrite length_skipn; lia |].
        apply (Forall_firstn_skipn is_u8 (n - 1) r Hr). }
  intros u8str. apply (Hk (length u8str)). lia.
Qed.

Lemma decoder_step sg endian c r n target :
  is_u8 c -> Forall is_u8 r -> sequence_length c = Some n -> (n - 1 <= length r)%nat ->
  decoder_for sg endian (c :: r) target =
    decoder_for sg endian (skipn (n - 1) r)
      (target ++ [u32_layout endian (utf8_payload (c :: firstn (n - 1) r))]).
Proof.
  intros Hc Hr Hn Hlen. rewrite decoder_cons by assumption. rewrite Hn.
  replace (length r <? n - 1)%nat with false by (symmetry; apply Nat.ltb_ge; lia).
  reflexivity.
Qed.

Lemma decoder_short sg endian c r n target :
  is_u8 c -> Forall is_u8 r -> sequence_length c = Some n -> (length r < n - 1)%nat ->
  decoder_for sg endian (c :: r) target = (false, target).
Proof.
  intros Hc Hr Hn Hlen. rewrite decoder_cons by assumption. rewrite Hn.
  apply Nat.ltb_lt in Hlen. rewrite Hlen. reflexivity.
Qed.

Lemma decoder_stray sg endian c r target :
  is_u8 c -> Forall is_u8 r -> sequence_length c = None ->
  decoder_for sg endian (c :: r) target = (false, target).
Proof.
  intros Hc Hr Hn. rewrite decoder_cons by assumption. rewrite Hn. reflexivity.
Qed.

(** What a call appends does not depend on what the target already holds. *)
Lemma decoder_target sg endian u8str :
  Forall is_u8 u8str ->
  forall target,
    decoder_for sg endian u8str target =
      (fst (decoder_for sg endian u8str []),
       target ++ snd (decoder_for sg endian u8str [])).
Proof.
  intros Hall. pattern u8str. revert u8str Hall. apply decoder_induction.
  - intros target. rewrite !decoder_nil. cbn. rewrite app_nil_r. reflexivity.
  - intros c r Hc Hr Hn target. rewrite !decoder_stray by assumption.
    cbn. rewrite app_nil_r. reflexivity.
  - intros c r n Hc Hr Hn Hlen target. rewrite !(decoder_short sg endian c r n) by assumption.
    cbn. rewrite app_nil_r. reflexivity.
  - intros c r n Hc Hr Hn Hlen IH target.
    rewrite !(decoder_step sg endian c r n) by assumption.
    rewrite IH. symmetry. rewrite IH. cbn [fst snd app].
    rewrite <- app_assoc. reflexivity.
Qed.

Lemma decoder_app sg endian before :
  Forall is_u8 before ->
  forall after target, Forall is_u8 after ->
    fst (decoder_for sg endian before target) = true ->
    decoder_for sg endian (before ++ after) target =
      decoder_for sg endian after (snd (decoder_for sg endian before target)).
Proof.
  intros Hall. pattern before. revert before Hall. apply decoder_induction.
  - intros after target _ _. rewrite decoder_nil. reflexivity.
  - intros c r Hc Hr Hn after target _ Hok.
    rewrite decoder_stray in Hok by assumption. discriminate.
  - intros c r n Hc Hr Hn Hlen after target _ Hok.
    rewrite (decoder_short sg endian c r n) in Hok by assumption. discriminate.
  - intros c r n Hc Hr Hn Hlen IH after target Hafter Hok.
    rewrite (decoder_step sg endian c r n) in Hok |- * by assumption.
    cbn [app].
    rewrite (decoder_step sg endian c (r ++ after) n)
      by first [assumption | apply Forall_app; split; assumption | rewrite length_app; lia].
    rewrite skipn_app, firstn_app.
    replace (n - 1 - length r)%nat with 0%nat by lia.
    cbn [skipn firstn]. rewrite app_nil_r.
    apply IH; assumption.
Qed.

Lemma utf8_payload_bounds c tail :
  is_u8 c -> Forall is_u8 tail -> (length tail <= 3)%nat ->
  0 <= utf8_payload (c :: tail) < 2 ^ 21.
Proof.
  intros Hc Htail Hlen. unfold is_u8 in Hc.
  destruct tail as [|c1 [|c2 [|c3 [|c4 tail]]]]; [| | | | cbn in Hlen; lia];
    repeat match goal with
           | H : Forall is_u8 (_ :: _) |- _ =>
               let Hx := fresh "Hx" in
               inversion H as [|? ? Hx ?]; subst; clear H; unfold is_u8 in Hx
           end;
    unfold utf8_payload; Z.div_mod_to_equations; lia.
Qed.

(** Every unit the decoder writes is a well-formed unit whose value, read in
    the byte order written, is below [2 ^ 21]; it writes at most one unit per
    byte, and on success at least one unit for every four bytes. *)
Lemma decoder_output sg endian u8str :
  recognized endian -> Forall is_u8 u8str ->
  Forall (fun u => wf_utf32 u /\ 0 <= u32_value endian u < 2 ^ 21)
    (snd (decoder_for sg endian u8str [])) /\
  (length (snd (decoder_for sg endian u8str [])) <= length u8str)%nat /\
  (fst (decoder_for sg endian u8str []) = true ->
   (length u8str <= 4 * length (snd (decoder_for sg endian u8str [])))%nat).
Proof.
  intros Hrec Hall. pattern u8str. revert u8str Hall. apply decoder_induction.
  - rewrite decoder_nil. cbn [fst snd length].
    split; [constructor | split; [lia | intros _; lia]].
  - intros c r Hc Hr Hn. rewrite decoder_stray by assumption.
    cbn [fst snd length]. split; [constructor | split; [lia | discriminate]].
  - intros c r n Hc Hr Hn Hlen. rewrite (decoder_short sg endian c r n) by assumption.
    cbn [fst snd length]. split; [constructor | split; [lia | discriminate]].
  - intros c r n Hc Hr Hn Hlen (IHu & IHlen & IHok).
    rewrite (decoder_step sg endian c r n) by assumption.
    destruct (Forall_firstn_skipn is_u8 (n - 1) r Hr) as [Hfirst Hskip].
    rewrite decoder_target by assumption.
    pose proof (sequence_length_bounds c n Hn) as Hb.
    cbn [fst snd app length]. rewrite length_skipn in IHlen, IHok.
    split; [| split; [lia | intros Hok; specialize (IHok Hok); lia]].
    constructor; [| exact IHu].
    assert (0 <= utf8_payload (c :: firstn (n - 1) r) < 2 ^ 21) as Hpay.
    { apply utf8_payload_bounds; try assumption.
      pose proof (firstn_le_length (n - 1) r). lia. }
    split; [apply wf_u32_layout |].
    rewrite u32_value_layout by lia. exact Hpay.
Qed.

Lemma match_u32_bom_own endian :
  recognized endian ->
  match_u32_bom (get_u32_str_bom endian) UTF_ENDIAN_BIG_ENDIAN
  = UTF_ENDIAN_eqb endian UTF_ENDIAN_BIG_ENDIAN /\
  match_u32_bom (get_u32_str_bom endian) UTF_ENDIAN_LITTLE_ENDIAN
  = UTF_ENDIAN_eqb endian UTF_ENDIAN_LITTLE_ENDIAN.
Proof. intros [-> | ->]; split; reflexivity. Qed.

Lemma match_u32_bom_other first endian :
  first <> get_u32_str_bom UTF_ENDIAN_BIG_ENDIAN ->
  first <> get_u32_str_bom UTF_ENDIAN_LITTLE_ENDIAN ->
  match_u32_bom first endian = false.
Proof.
  intros Hbe Hle. destruct first as [a b c d]. unfold match_u32_bom.
  cbn [v32_0 v32_1 v32_2 v32_3 get_u32_str_bom] in *.
  destruct ((a =? 0x00) && (b =? 0x00) && (c =? 0xfe) && (d =? 0xff)) eqn:Ebe.
  { rewrite !andb_true_iff, !Z.eqb_eq in Ebe. destruct Ebe as (((-> & ->) & ->) & ->).
    contradiction Hbe. reflexivity. }
  destruct ((a =? 0xff) && (b =? 0xfe) && (c =? 0x00) && (d =? 0x00)) eqn:Ele.
  { rewrite !andb_true_iff, !Z.eqb_eq in Ele. destruct Ele as (((-> & ->) & ->) & ->).
    contradiction Hle. reflexivity. }
  reflexivity.
Qed.

Lemma to_u8string_u32_with_bom_own endian rest target :
  recognized endian ->
  to_u8string_u32_with_bom (get_u32_str_bom endian :: rest) target
  = to_u8string_u32 rest endian target.
Proof. intros [-> | ->]; reflexivity. Qed.

(** X5.  The decoder works through a concatenation from left to right: when
    the first part is decoded successfully, decoding the whole gives the flag
    of the second part and the units of the first part followed by those of
    the second. *)
Theorem X5_u8_decoder_concatenation :
  forall (char_is_signed : bool) (endian : UTF_ENDIAN) (before after : u8string)
         (target : u32string) (add_bom : bool),
    Forall is_u8 before -> Forall is_u8 after ->
    fst (to_u32string char_is_signed before target endian add_bom) = true ->
    to_u32string char_is_signed (before ++ after) target endian add_bom =
      (fst (to_u32string char_is_signed after target endian false),
       snd (to_u32string char_is_signed before target endian add_bom)
         ++ snd (to_u32string char_is_signed after target endian false)).
Proof.
  intros sg endian before after target add_bom Hbefore Hafter Hok.
  rewrite !to_u32string_decoder in *.
  rewrite decoder_app by assumption.
  apply decoder_target. exact Hafter.
Qed.

Lemma X5_u8_decoder_concatenation_witness :
  Forall is_u8 [0xE2; 0x82; 0xAC] /\ Forall is_u8 [0x41; 0x80] /\
  fst (to_u32string true [0xE2; 0x82; 0xAC] [] UTF_ENDIAN_BIG_ENDIAN true) = true /\
  to_u32string true ([0xE2; 0x82; 0xAC] ++ [0x41; 0x80]) [] UTF_ENDIAN_BIG_ENDIAN true =
    (fst (to_u32string true [0x41; 0x80] [] UTF_ENDIAN_BIG_ENDIAN false),
     snd (to_u32string true [0xE2; 0x82; 0xAC] [] UTF_ENDIAN_BIG_ENDIAN true)
       ++ snd (to_u32string true [0x41; 0x80] [] UTF_ENDIAN_BIG_ENDIAN false)).
Proof.
  assert (Forall is_u8 [0xE2; 0x82; 0xAC]) as Hbefore
    by (repeat (apply Forall_cons; [vm_compute; intuition discriminate|]);
        apply Forall_nil).
  assert (Forall is_u8 [0x41; 0x80]) as Hafter
    by (repeat (apply Forall_cons; [vm_compute; intuition discriminate|]);
        apply Forall_nil).
  assert (fst (to_u32string true [0xE2; 0x82; 0xAC] [] UTF_ENDIAN_BIG_ENDIAN true) = true)
    as Hok by reflexivity.
  split; [exact Hbefore|]. split; [exact Hafter|]. split; [exact Hok|].
  exact (X5_u8_decoder_concatenation true UTF_ENDIAN_BIG_ENDIAN _ _ [] true
           Hbefore Hafter Hok).
Defined.

(** X6.  When the decoder fails, the target holds the units of the bytes
    before the lead byte it stopped at: if those bytes are decoded
    successfully on their own, decoding them followed by a stray or
    truncated lead byte returns failure with exactly their units. *)
Theorem X6_u8_decoder_failure_keeps_decoded_prefix :
  forall (char_is_signed : bool) (endian : UTF_ENDIAN) (before : u8string) (c : Z)
         (rest : u8string) (target out : u32string) (add_bom : bool),
    Forall is_u8 before -> is_u8 c -> Forall is_u8 rest ->
    to_u32string char_is_signed before target endian add_bom = (true, out) ->
    stray_lead c \/ truncated_sequence c rest ->
    to_u32string char_is_signed (before ++ c :: rest) target endian add_bom
    = (false, out).
Proof.
  intros sg endian before c rest target out add_bom Hbefore Hc Hrest Hrun Hbad.
  rewrite !to_u32string_decoder in *.
  rewrite decoder_app; rewrite ?Hrun;
    [| assumption | constructor; assumption | reflexivity].
  cbn [snd]. apply decoder_stops_at_bad_byte; assumption.
Qed.

Lemma X6_u8_decoder_failure_keeps_decoded_prefix_witness :
  Forall is_u8 [0x41; 0xC3; 0xA9] /\ is_u8 0xF0 /\ Forall is_u8 [0x9F; 0x98] /\
  to_u32string false [0x41; 0xC3; 0xA9] [] UTF_ENDIAN_LITTLE_ENDIAN false
  = (true, [mk_utf32 0x41 0 0 0; mk_utf32 0xE9 0 0 0]) /\
  (stray_lead 0xF0 \/ truncated_sequence 0xF0 [0x9F; 0x98]) /\
  to_u32string false ([0x41; 0xC3; 0xA9] ++ 0xF0 :: [0x9F; 0x98]) []
    UTF_ENDIAN_LITTLE_ENDIAN false
  = (false, [mk_utf32 0x41 0 0 0; mk_utf32 0xE9 0 0 0]).
Proof.
  assert (Forall is_u8 [0x41; 0xC3; 0xA9]) as Hbefore
    by (repeat (apply Forall_cons; [vm_compute; intuition discriminate|]);
        apply Forall_nil).
  assert (is_u8 0xF0) as Hc by (vm_compute; intuition discriminate).
  assert (Forall is_u8 [0x9F; 0x98]) as Hrest
    by (repeat (apply Forall_cons; [vm_compute; intuition discriminate|]);
        apply Forall_nil).
  assert (to_u32string false [0x41; 0xC3; 0xA9] [] UTF_ENDIAN_LITTLE_ENDIAN false
          = (true, [mk_utf32 0x41 0 0 0; mk_utf32 0xE9 0 0 0])) as Hrun by reflexivity.
  assert (stray_lead 0xF0 \/ truncated_sequence 0xF0 [0x9F; 0x98]) as Hbad.
  { right. exists 4%nat. split; [reflexivity | cbn; lia]. }
  split; [exact Hbefore|]. split; [exact Hc|]. split; [exact Hrest|].
  split; [exact Hrun|]. split; [exact Hbad|].
  exact (X6_u8_decoder_failure_keeps_decoded_prefix false UTF_ENDIAN_LITTLE_ENDIAN
           _ _ _ [] _ false Hbefore Hc Hrest Hrun Hbad).
Defined.

(** X7.  Asking the decoder for a byte-order mark changes nothing but the
    first unit: the flag is the one of the call without a mark, and the
    target is the mark of the byte order followed by the units of that
    call. *)
Theorem X7_u8_decoder_add_bom_prepends :
  forall (char_is_signed : bool) (endian : UTF_ENDIAN) (u8str : u8string)
         (target : u32string),
    Forall is_u8 u8str ->
    to_u32string char_is_signed u8str target endian true =
      (fst (to_u32string char_is_signed u8str target endian false),
       get_u32_str_bom endian :: snd (to_u32string char_is_signed u8str target endian false)).
Proof.
  intros sg endian u8str target Hall.
  rewrite !to_u32string_decoder.
  rewrite decoder_target by assumption. reflexivity.
Qed.

Lemma X7_u8_decoder_add_bom_prepends_witness :
  Forall is_u8 [0x41; 0xC3; 0xA9; 0x80] /\
  to_u32string true [0x41; 0xC3; 0xA9; 0x80] [] UTF_ENDIAN_LITTLE_ENDIAN true =
    (fst (to_u32string true [0x41; 0xC3; 0xA9; 0x80] [] UTF_ENDIAN_LITTLE_ENDIAN false),
     get_u32_str_bom UTF_ENDIAN_LITTLE_ENDIAN
       :: snd (to_u32string true [0x41; 0xC3; 0xA9; 0x80] [] UTF_ENDIAN_LITTLE_ENDIAN false)).
Proof.
  assert (Forall is_u8 [0x41; 0xC3; 0xA9; 0x80]) as Hall
    by (repeat (apply Forall_cons; [vm_compute; intuition discriminate|]);
        apply Forall_nil).
  split; [exact Hall|].
  exact (X7_u8_decoder_add_bom_prepends true UTF_ENDIAN_LITTLE_ENDIAN _ [] Hall).
Defined.





(** ** Byte-order marks *)

Lemma convert_u32_of_values endian vs target :
  recognized endian -> Forall (fun v => 0 <= v < 0x110000) vs ->
  convert_u32str_to_u8str_without_bom (map (u32_layout endian) vs) endian target
  = (true, target ++ flat_map utf8_bytes vs).
Proof.
  intros Hrec Hvs. revert target.
  induction Hvs as [|v vs Hv Hvs IH]; intros target; cbn [map flat_map].
  - rewrite app_nil_r. reflexivity.
  - rewrite convert_u32_cons by (assumption || apply wf_u32_layout).
    rewrite u32_value_layout by lia.
    replace (v <? 0x110000) with true by (symmetry; apply Z.ltb_lt; lia).
    rewrite IH, <- app_assoc. reflexivity.
Qed.

(** X10.  The UTF-32 entry point that reads the byte order from the buffer
    looks at the first unit only.  When that unit is the mark of a
    recognized byte order, the call is the conversion of the remaining units
    in that byte order; when it is neither mark, the call fails with an
    empty target; on an empty buffer the call fails and leaves the target as
    it was. *)
Theorem X10_u32_bom_entry_dispatch :
  (forall (endian : UTF_ENDIAN) (rest : u32string) (target : u8string),
     recognized endian ->
     to_u8string_u32_with_bom (get_u32_str_bom endian :: rest) target
     = to_u8string_u32 rest endian target) /\
  (forall (first : utf32_character) (rest : u32string) (target : u8string),
     first <> get_u32_str_bom UTF_ENDIAN_BIG_ENDIAN ->
     first <> get_u32_str_bom UTF_ENDIAN_LITTLE_ENDIAN ->
     to_u8string_u32_with_bom (first :: rest) target = (false, [])) /\
  (forall target : u8string, to_u8string_u32_with_bom [] target = (false, target)).
Proof.
  split; [| split].
  - intros endian rest target Hrec. apply to_u8string_u32_with_bom_own. exact Hrec.
  - intros first rest target Hbe Hle. unfold to_u8string_u32_with_bom.
    rewrite !match_u32_bom_other by assumption. reflexivity.
  - reflexivity.
Qed.

Lemma X10_u32_bom_entry_dispatch_witness :
  recognized UTF_ENDIAN_LITTLE_ENDIAN /\
  mk_utf32 0xfe 0xff 0x00 0x00 <> get_u32_str_bom UTF_ENDIAN_BIG_ENDIAN /\
  mk_utf32 0xfe 0xff 0x00 0x00 <> get_u32_str_bom UTF_ENDIAN_LITTLE_ENDIAN /\
  to_u8string_u32_with_bom
    (get_u32_str_bom UTF_ENDIAN_LITTLE_ENDIAN :: [mk_utf32 0x41 0x00 0x00 0x00]) [0x99]
  = to_u8string_u32 [mk_utf32 0x41 0x00 0x00 0x00] UTF_ENDIAN_LITTLE_ENDIAN [0x99] /\
  to_u8string_u32_with_bom
    (mk_utf32 0xfe 0xff 0x00 0x00 :: [mk_utf32 0x41 0x00 0x00 0x00]) [0x99]
  = (false, []).
Proof.
  assert (recognized UTF_ENDIAN_LITTLE_ENDIAN) as Hrec by (right; reflexivity).
  assert (mk_utf32 0xfe 0xff 0x00 0x00 <> get_u32_str_bom UTF_ENDIAN_BIG_ENDIAN) as Hbe
    by (cbn; discriminate).
  assert (mk_utf32 0xfe 0xff 0x00 0x00 <> get_u32_str_bom UTF_ENDIAN_LITTLE_ENDIAN) as Hle
    by (cbn; discriminate).
  destruct X10_u32_bom_entry_dispatch as (Hown & Hother & _).
  split; [exact Hrec|]. split; [exact Hbe|]. split; [exact Hle|].
  split; [exact (Hown UTF_ENDIAN_LITTLE_ENDIAN _ [0x99] Hrec)|].
  exact (Hother _ _ [0x99] Hbe Hle).
Defined.

(** X11.  Round trip through a marked UTF-32 buffer: decoding the UTF-8
    form of code points below [0x110000] with a byte-order mark gives the
    mark followed by the code points laid out in the byte order asked for,
    and the entry point that reads the byte order from the mark converts
    that buffer back to the same bytes. *)
Theorem X11_bom_round_trip :
  forall (char_is_signed : bool) (endian : UTF_ENDIAN) (vs : list Z)
         (target : u32string) (target' : u8string),
    recognized endian -> Forall (fun v => 0 <= v < 0x110000) vs ->
    to_u32string char_is_signed (flat_map utf8_bytes vs) target endian true
    = (true, get_u32_str_bom endian :: map (u32_layout endian) vs) /\
    to_u8string_u32_with_bom (get_u32_str_bom endian :: map (u32_layout endian) vs) target'
    = (true, flat_map utf8_bytes vs).
Proof.
  intros sg endian vs target target' Hrec Hvs. split.
  - rewrite to_u32string_decoder, decoder_flat_map_utf8_bytes; [reflexivity|].
    revert Hvs. apply Forall_impl. intros v Hv. lia.
  - rewrite to_u8string_u32_with_bom_own by assumption. unfold to_u8string_u32.
    rewrite convert_u32_of_values by assumption. reflexivity.
Qed.

Lemma X11_bom_round_trip_witness :
  recognized UTF_ENDIAN_LITTLE_ENDIAN /\
  Forall (fun v => 0 <= v < 0x110000) [0x41; 0xE9; 0x20AC; 0x1F600] /\
  to_u32string true (flat_map utf8_bytes [0x41; 0xE9; 0x20AC; 0x1F600]) []
    UTF_ENDIAN_LITTLE_ENDIAN true
  = (true, get_u32_str_bom UTF_ENDIAN_LITTLE_ENDIAN
             :: map (u32_layout UTF_ENDIAN_LITTLE_ENDIAN) [0x41; 0xE9; 0x20AC; 0x1F600]) /\
  to_u8string_u32_with_bom
    (get_u32_str_bom UTF_ENDIAN_LITTLE_ENDIAN
       :: map (u32_layout UTF_ENDIAN_LITTLE_ENDIAN) [0x41; 0xE9; 0x20AC; 0x1F600]) []
  = (true, flat_map utf8_bytes [0x41; 0xE9; 0x20AC; 0x1F600]).
Proof.
  assert (recognized UTF_ENDIAN_LITTLE_ENDIAN) as Hrec by (right; reflexivity).
  assert (Forall (fun v => 0 <= v < 0x110000) [0x41; 0xE9; 0x20AC; 0x1F600]) as Hvs
    by (repeat (apply Forall_cons; [vm_compute; intuition discriminate|]);
        apply Forall_nil).
  split; [exact Hrec|]. split; [exact Hvs|].
  exact (X11_bom_round_trip true UTF_ENDIAN_LITTLE_ENDIAN _ [] [] Hrec Hvs).
Defined.

(** X12.  With a byte order that is neither member the decoder does not
    fail: it decodes as for big endian, and when a mark is asked for it
    writes a unit of four zero bytes in its place.  The entry point that
    reads the byte order from the first unit refuses the buffer so
    produced. *)
Theorem X12_u8_decoder_unrecognized_byte_order :
  forall (char_is_signed : bool) (u8str : u8string) (target : u32string)
         (target' : u8string),
    Forall is_u8 u8str ->
    to_u32string char_is_signed u8str target UTF_ENDIAN_UNRECOGNIZED false
    = to_u32string char_is_signed u8str target UTF_ENDIAN_BIG_ENDIAN false /\
    to_u32string char_is_signed u8str target UTF_ENDIAN_UNRECOGNIZED true
    = (fst (to_u32string char_is_signed u8str target UTF_ENDIAN_BIG_ENDIAN false),
       mk_utf32 0 0 0 0
         :: snd (to_u32string char_is_signed u8str target UTF_ENDIAN_BIG_ENDIAN false)) /\
    to_u8string_u32_with_bom
      (snd (to_u32string char_is_signed u8str target UTF_ENDIAN_UNRECOGNIZED true)) target'
    = (false, []).
Proof.
  intros sg u8str target target' Hall.
  assert (to_u32string sg u8str target UTF_ENDIAN_UNRECOGNIZED true
          = (fst (to_u32string sg u8str target UTF_ENDIAN_BIG_ENDIAN false),
             mk_utf32 0 0 0 0
               :: snd (to_u32string sg u8str target UTF_ENDIAN_BIG_ENDIAN false))) as Hbom.
  { rewrite !to_u32string_decoder.
    change (decoder_for sg UTF_ENDIAN_UNRECOGNIZED) with (decoder_for sg UTF_ENDIAN_BIG_ENDIAN).
    rewrite decoder_target by assumption. reflexivity. }
  split; [reflexivity|]. split; [exact Hbom|].
  rewrite Hbom. reflexivity.
Qed.

Lemma X12_u8_decoder_unrecognized_byte_order_witness :
  Forall is_u8 [0x41; 0xE2; 0x82; 0xAC] /\
  to_u32string false [0x41; 0xE2; 0x82; 0xAC] [] UTF_ENDIAN_UNRECOGNIZED true
  = (true, [mk_utf32 0 0 0 0; mk_utf32 0 0 0 0x41; mk_utf32 0 0 0x20 0xAC]) /\
  to_u8string_u32_with_bom
    (snd (to_u32string false [0x41; 0xE2; 0x82; 0xAC] [] UTF_ENDIAN_UNRECOGNIZED true)) []
  = (false, []).
Proof.
  assert (Forall is_u8 [0x41; 0xE2; 0x82; 0xAC]) as Hall
    by (repeat (apply Forall_cons; [vm_compute; intuition discriminate|]);
        apply Forall_nil).
  destruct (X12_u8_decoder_unrecognized_byte_order false _ [] [] Hall)
    as (_ & Hbom & Hrefused).
  split; [exact Hall|]. split; [exact Hbom | exact Hrefused].
Defined.

(** ** The UTF-16 encoder on whole buffers *)

(** Induction along the steps of the UTF-16 encoder. *)
Lemma convert_u16_induction endian (P : u16string -> Prop) :
  P [] ->
  (forall cur rest, wf_utf16 cur -> Forall wf_utf16 rest ->
     ~ 0xd800 <= u16_value endian cur < 0xdc00 -> P rest -> P (cur :: rest)) ->
  (forall cur, wf_utf16 cur -> 0xd800 <= u16_value endian cur < 0xdc00 -> P [cur]) ->
  (forall cur cur' rest, wf_utf16 cur -> wf_utf16 cur' -> Forall wf_utf16 rest ->
     0xd800 <= u16_value endian cur < 0xdc00 -> u16_value endian cur' < 0xdc00 ->
     P (cur :: cur' :: rest)) ->
  (forall cur cur' rest, wf_utf16 cur -> wf_utf16 cur' -> Forall wf_utf16 rest ->
     0xd800 <= u16_value endian cur < 0xdc00 -> 0xdc00 <= u16_value endian cur' ->
     P rest -> P (cur :: cur' :: rest)) ->
  forall u16str, Forall wf_utf16 u16str -> P u16str.
Proof.
  intros Hnil Hplain Hlone Hbad Hpair.
  assert (forall k u16str, (length u16str <= k)%nat -> Forall wf_utf16 u16str -> P u16str)
    as Hk.
  { induction k as [|k IH]; intros u16str Hlen Hall.
    - destruct u16str; [exact Hnil | cbn in Hlen; lia].
    - destruct u16str as [|cur rest]; [exact Hnil|].
      inversion Hall as [|? ? Hcur Hrest]; subst. cbn [length] in Hlen.
      destruct (Z.le_gt_cases 0xd800 (u16_value endian cur)) as [Hge|Hlt];
        [destruct (Z.lt_ge_cases (u16_value endian cur) 0xdc00) as [Hlead|Hnot]|].
      + destruct rest as [|cur' rest']; [apply Hlone; (assumption || lia)|].
        inversion Hrest as [|? ? Hcur' Hrest']; subst. cbn [length] in Hlen.
        destruct (Z.lt_ge_cases (u16_value endian cur') 0xdc00) as [Hlow|Hlow].
        * apply Hbad; (assumption || lia).
        * apply Hpair; try (assumption || lia). apply IH; [lia | assumption].
      + apply Hplain; try assumption; [lia | apply IH; [lia | assumption]].
      + apply Hplain; try assumption; [lia | apply IH; [lia | assumption]]. }
  intros u16str. apply (Hk (length u16str)). lia.
Qed.

Lemma convert_u16_pair_step cur cur' rest endian target :
  recognized endian -> wf_utf16 cur -> wf_utf16 cur' ->
  0xd800 <= u16_value endian cur < 0xdc00 -> 0xdc00 <= u16_value endian cur' ->
  convert_u16str_to_u8str_without_bom (cur :: cur' :: rest) endian target =
    convert_u16str_to_u8str_without_bom rest endian
      (target ++ utf8_bytes
         (assembled_code_point (u16_value endian cur) (u16_value endian cur'))).
Proof.
  intros Hrec Hwf Hwf' Hlead Hlow. rewrite convert_u16_lead by assumption.
  replace (_ <? 0xdc00) with false by (symmetry; apply Z.ltb_ge; lia). reflexivity.
Qed.

Lemma convert_u16_bad_pair cur cur' rest endian target :
  recognized endian -> wf_utf16 cur -> wf_utf16 cur' ->
  0xd800 <= u16_value endian cur < 0xdc00 -> u16_value endian cur' < 0xdc00 ->
  convert_u16str_to_u8str_without_bom (cur :: cur' :: rest) endian target
  = Some (false, target).
Proof.
  intros Hrec Hwf Hwf' Hlead Hlow. rewrite convert_u16_lead by assumption.
  apply Z.ltb_lt in Hlow. rewrite Hlow. reflexivity.
Qed.

(** For a recognized byte order the call has a defined result, and what it
    appends does not depend on what the target already holds. *)
Lemma convert_u16_target endian u16str :
  recognized endian -> Forall wf_utf16 u16str ->
  exists flag out,
    forall target,
      convert_u16str_to_u8str_without_bom u16str endian target
      = Some (flag, target ++ out).
Proof.
  intros Hrec Hall. pattern u16str. revert u16str Hall.
  apply (convert_u16_induction endian).
  - exists true, []. intros target. cbn. rewrite app_nil_r. reflexivity.
  - intros cur rest Hcur Hrest Hplain (flag & out & IH).
    exists flag, (utf8_bytes (u16_value endian cur) ++ out). intros target.
    rewrite convert_u16_plain by assumption. rewrite IH, app_assoc. reflexivity.
  - intros cur Hcur Hlead. exists false, []. intros target.
    rewrite convert_u16_lone_lead by assumption. rewrite app_nil_r. reflexivity.
  - intros cur cur' rest Hcur Hcur' Hrest Hlead Hlow. exists false, []. intros target.
    rewrite convert_u16_bad_pair by assumption. rewrite app_nil_r. reflexivity.
  - intros cur cur' rest Hcur Hcur' Hrest Hlead Hlow (flag & out & IH).
    exists flag,
      (utf8_bytes (assembled_code_point (u16_value endian cur) (u16_value endian cur'))
         ++ out).
    intros target. rewrite convert_u16_pair_step by assumption.
    rewrite IH, app_assoc. reflexivity.
Qed.

Lemma utf8_bytes_length_u16 v :
  0 <= v < 2 ^ 16 -> (length (utf8_bytes v) <= 3)%nat.
Proof.
  intros Hv. rewrite utf8_bytes_length.
  destruct (v <? 2 ^ 7), (v <? 2 ^ 11); try lia.
  replace (v <? 2 ^ 16) with true by (symmetry; apply Z.ltb_lt; lia). lia.
Qed.

Lemma utf8_bytes_pair_length high low :
  0xd800 <= high < 0xdc00 -> 0xdc00 <= low < 2 ^ 16 ->
  length (utf8_bytes (assembled_code_point high low)) = 4%nat.
Proof.
  intros Hh Hl. pose proof (assembled_code_point_bounds high low Hh Hl) as Hcp.
  rewrite utf8_bytes_length.
  replace (_ <? 2 ^ 7) with false by (symmetry; apply Z.ltb_ge; lia).
  replace (_ <? 2 ^ 11) with false by (symmetry; apply Z.ltb_ge; lia).
  replace (_ <? 2 ^ 16) with false by (symmetry; apply Z.ltb_ge; lia).
  reflexivity.
Qed.

Lemma convert_u16_length endian u16str :
  recognized endian -> Forall wf_utf16 u16str ->
  exists flag out,
    convert_u16str_to_u8str_without_bom u16str endian [] = Some (flag, out) /\
    (length out <= 3 * length u16str)%nat /\
    (flag = true -> (length u16str <= length out)%nat).
Proof.
  intros Hrec Hall. pattern u16str. revert u16str Hall.
  apply (convert_u16_induction endian).
  - exists true, []. cbn. repeat split; lia.
  - intros cur rest Hcur Hrest Hplain (flag & out & IH & Hup & Hlow).
    destruct (convert_u16_target endian rest Hrec Hrest) as (flag' & out' & Htarget).
    rewrite Htarget in IH. cbn [app] in IH. injection IH as <- <-.
    exists flag', (utf8_bytes (u16_value endian cur) ++ out').
    rewrite convert_u16_plain, Htarget by assumption.
    split; [reflexivity|]. rewrite length_app. cbn [length].
    pose proof (utf8_bytes_length_bounds (u16_value endian cur)) as Hb.
    pose proof (utf8_bytes_length_u16 _ (u16_value_bounds endian cur Hcur)) as Hb3.
    split; [lia | intros Hok; specialize (Hlow Hok); lia].
  - intros cur Hcur Hlead. exists false, [].
    rewrite convert_u16_lone_lead by assumption.
    split; [reflexivity|]. cbn [length]. split; [lia | discriminate].
  - intros cur cur' rest Hcur Hcur' Hrest Hlead Hlow. exists false, [].
    rewrite convert_u16_bad_pair by assumption.
    split; [reflexivity|]. cbn [length]. split; [lia | discriminate].
  - intros cur cur' rest Hcur Hcur' Hrest Hlead Hlow (flag & out & IH & Hup & Hlen).
    destruct (convert_u16_target endian rest Hrec Hrest) as (flag' & out' & Htarget).
    rewrite Htarget in IH. cbn [app] in IH. injection IH as <- <-.
    exists flag',
      (utf8_bytes (assembled_code_point (u16_value endian cur) (u16_value endian cur'))
         ++ out').
    rewrite convert_u16_pair_step, Htarget by assumption.
    split; [reflexivity|]. rewrite length_app. cbn [length].
    rewrite utf8_bytes_pair_length
      by (assumption || (pose proof (u16_value_bounds endian cur' Hcur'); lia)).
    split; [lia | intros Hok; specialize (Hlen Hok); lia].
Qed.

Lemma convert_u16_layouts endian :
  recognized endian ->
  forall k vs, (length vs <= k)%nat -> Forall (fun v => 0 <= v < 2 ^ 16) vs ->
  forall target,
    convert_u16str_to_u8str_without_bom (map (u16_layout endian) vs) endian target =
      convert_u16str_to_u8str_without_bom (map (u16_layout UTF_ENDIAN_BIG_ENDIAN) vs)
        UTF_ENDIAN_BIG_ENDIAN target.
Proof.
  intros Hrec.
  assert (recognized UTF_ENDIAN_BIG_ENDIAN) as Hbe by (left; reflexivity).
  induction k as [|k IH]; intros vs Hlen Hvs target.
  - destruct vs; [reflexivity | cbn in Hlen; lia].
  - destruct vs as [|v rest]; [reflexivity|].
    inversion Hvs as [|? ? Hv Hrest]; subst. cbn [length map] in Hlen |- *.
    assert (forall e, u16_value e (u16_layout e v) = v) as Hval
      by (intros e; apply u16_value_layout; exact Hv).
    destruct (Z.le_gt_cases 0xd800 v) as [Hge|Hlt];
      [destruct (Z.lt_ge_cases v 0xdc00) as [Hlead|Hnot]|].
    + destruct rest as [|v' rest'].
      { cbn [map]. rewrite !convert_u16_lone_lead
          by (try apply wf_u16_layout; try assumption; rewrite Hval; lia).
        reflexivity. }
      inversion Hrest as [|? ? Hv' Hrest']; subst. cbn [length map] in Hlen |- *.
      rewrite !convert_u16_lead
        by (try apply wf_u16_layout; try assumption; rewrite Hval; lia).
      rewrite !Hval, !(u16_value_layout _ v') by assumption.
      destruct (v' <? 0xdc00); [reflexivity|]. apply IH; [lia | assumption].
    + rewrite !convert_u16_plain
        by (try apply wf_u16_layout; try assumption; rewrite Hval; lia).
      rewrite !Hval. apply IH; [lia | assumption].
    + rewrite !convert_u16_plain
        by (try apply wf_u16_layout; try assumption; rewrite Hval; lia).
      rewrite !Hval. apply IH; [lia | assumption].
Qed.

Lemma utf16_units_range cp :
  0 <= cp < 0x110000 -> Forall (fun v => 0 <= v < 2 ^ 16) (utf16_units cp).
Proof.
  intros Hcp. unfold utf16_units.
  destruct (Z.ltb_spec cp 0x10000); repeat constructor;
    try lia; Z.div_mod_to_equations; lia.
Qed.

(** The UTF-16 form of a scalar value is converted to its UTF-8 form. *)
Lemma convert_u16_scalar endian cp rest target :
  recognized endian -> unicode_scalar cp ->
  convert_u16str_to_u8str_without_bom
    (map (u16_layout endian) (utf16_units cp) ++ rest) endian target =
    convert_u16str_to_u8str_without_bom rest endian (target ++ utf8_bytes cp).
Proof.
  intros Hrec Hcp. unfold unicode_scalar in Hcp. unfold utf16_units.
  destruct (Z.ltb_spec cp 0x10000) as [Hbmp|Hsup]; cbn [map app].
  - rewrite convert_u16_plain
      by (try apply wf_u16_layout; try assumption; rewrite u16_value_layout; lia).
    rewrite u16_value_layout by lia. reflexivity.
  - set (high := 0xD800 + (cp - 0x10000) / 2 ^ 10).
    set (low := 0xDC00 + (cp - 0x10000) mod 2 ^ 10).
    assert (0xd800 <= high < 0xdc00) as Hhigh
      by (unfold high; Z.div_mod_to_equations; lia).
    assert (0xdc00 <= low < 0xe000) as Hlow
      by (unfold low; Z.div_mod_to_equations; lia).
    rewrite convert_u16_pair_step
      by (try apply wf_u16_layout; try assumption; rewrite u16_value_layout; lia).
    rewrite !u16_value_layout by lia.
    rewrite assembled_code_point_pair, Z.shiftl_mul_pow2 by lia.
    replace (0x10000 + (high - 0xD800) * 2 ^ 10 + (low - 0xDC00)) with cp
      by (unfold high, low; Z.div_mod_to_equations; lia).
    reflexivity.
Qed.

Lemma convert_u16_scalars endian cps target :
  recognized endian -> Forall unicode_scalar cps ->
  convert_u16str_to_u8str_without_bom
    (map (u16_layout endian) (flat_map utf16_units cps)) endian target
  = Some (true, target ++ flat_map utf8_bytes cps).
Proof.
  intros Hrec Hcps. revert target.
  induction Hcps as [|cp cps Hcp Hcps IH]; intros target; cbn [flat_map map].
  - rewrite app_nil_r. reflexivity.
  - rewrite map_app, convert_u16_scalar by assumption.
    rewrite IH, <- app_assoc. reflexivity.
Qed.

Lemma unicode_scalar_range cp : unicode_scalar cp -> 0 <= cp < 0x110000.
Proof. unfold unicode_scalar. lia. Qed.

(** X13.  The UTF-16 encoder works through a concatenation from left to
    right provided the first part is converted successfully on its own, so
    that it does not end in a lead surrogate waiting for its trail: the
    result for the whole is then the flag of the second part with the two
    outputs joined. *)
Theorem X13_u16_encoder_concatenation :
  forall (endian : UTF_ENDIAN) (before after : u16string) (target out : u8string),
    recognized endian -> Forall wf_utf16 before -> Forall wf_utf16 after ->
    to_u8string_u16 before endian target = Some (true, out) ->
    exists flag out',
      to_u8string_u16 after endian target = Some (flag, out') /\
      to_u8string_u16 (before ++ after) endian target = Some (flag, out ++ out').
Proof.
  intros endian before after target out Hrec Hbefore Hafter Hrun.
  destruct (convert_u16_target endian after Hrec Hafter) as (flag & out' & Htarget).
  exists flag, out'. split.
  - unfold to_u8string_u16. apply (Htarget []).
  - rewrite (to_u8string_u16_app endian before after target out) by assumption.
    apply Htarget.
Qed.

Lemma X13_u16_encoder_concatenation_witness :
  recognized UTF_ENDIAN_BIG_ENDIAN /\
  Forall wf_utf16 [mk_utf16 0x00 0x41; mk_utf16 0x20 0xAC] /\
  Forall wf_utf16 [mk_utf16 0xD8 0x3D; mk_utf16 0xDE 0x00] /\
  to_u8string_u16 [mk_utf16 0x00 0x41; mk_utf16 0x20 0xAC] UTF_ENDIAN_BIG_ENDIAN []
  = Some (true, [0x41; 0xE2; 0x82; 0xAC]) /\
  exists flag out',
    to_u8string_u16 [mk_utf16 0xD8 0x3D; mk_utf16 0xDE 0x00] UTF_ENDIAN_BIG_ENDIAN []
    = Some (flag, out') /\
    to_u8string_u16 ([mk_utf16 0x00 0x41; mk_utf16 0x20 0xAC]
                       ++ [mk_utf16 0xD8 0x3D; mk_utf16 0xDE 0x00]) UTF_ENDIAN_BIG_ENDIAN []
    = Some (flag, [0x41; 0xE2; 0x82; 0xAC] ++ out').
Proof.
  assert (recognized UTF_ENDIAN_BIG_ENDIAN) as Hrec by (left; reflexivity).
  assert (Forall wf_utf16 [mk_utf16 0x00 0x41; mk_utf16 0x20 0xAC]) as Hbefore
    by (repeat (apply Forall_cons; [vm_compute; intuition discriminate|]);
        apply Forall_nil).
  assert (Forall wf_utf16 [mk_utf16 0xD8 0x3D; mk_utf16 0xDE 0x00]) as Hafter
    by (repeat (apply Forall_cons; [vm_compute; intuition discriminate|]);
        apply Forall_nil).
  assert (to_u8string_u16 [mk_utf16 0x00 0x41; mk_utf16 0x20 0xAC] UTF_ENDIAN_BIG_ENDIAN []
          = Some (true, [0x41; 0xE2; 0x82; 0xAC])) as Hrun by reflexivity.
  split; [exact Hrec|]. split; [exact Hbefore|]. split; [exact Hafter|].
  split; [exact Hrun|].
  exact (X13_u16_encoder_concatenation UTF_ENDIAN_BIG_ENDIAN _ _ [] _
           Hrec Hbefore Hafter Hrun).
Defined.

(** X14.  For a recognized byte order the UTF-16 encoder always has a
    defined result; it never writes more than three bytes per unit, and a
    successful conversion writes at least one byte per unit.  For a byte
    order that is neither member the call on a non-empty buffer has no
    defined result. *)
Theorem X14_u16_encoder_result_and_size :
  (forall (endian : UTF_ENDIAN) (u16str : u16string) (target : u8string),
     recognized endian -> Forall wf_utf16 u16str ->
     exists flag out,
       to_u8string_u16 u16str endian target = Some (flag, out) /\
       (length out <= 3 * length u16str)%nat /\
       (flag = true -> (length u16str <= length out)%nat)) /\
  (forall (cur : utf16_character) (rest : u16string) (target : u8string),
     to_u8string_u16 (cur :: rest) UTF_ENDIAN_UNRECOGNIZED target = None).
Proof.
  split.
  - intros endian u16str target Hrec Hall. unfold to_u8string_u16.
    apply convert_u16_length; assumption.
  - reflexivity.
Qed.

Lemma X14_u16_encoder_result_and_size_witness :
  recognized UTF_ENDIAN_LITTLE_ENDIAN /\
  Forall wf_utf16 [mk_utf16 0xAC 0x20; mk_utf16 0x3D 0xD8; mk_utf16 0x00 0xDE] /\
  exists flag out,
    to_u8string_u16 [mk_utf16 0xAC 0x20; mk_utf16 0x3D 0xD8; mk_utf16 0x00 0xDE]
      UTF_ENDIAN_LITTLE_ENDIAN [] = Some (flag, out) /\
    (length out <= 3 * 3)%nat /\
    (flag = true -> (3 <= length out)%nat).
Proof.
  assert (recognized UTF_ENDIAN_LITTLE_ENDIAN) as Hrec by (right; reflexivity).
  assert (Forall wf_utf16 [mk_utf16 0xAC 0x20; mk_utf16 0x3D 0xD8; mk_utf16 0x00 0xDE])
    as Hall
    by (repeat (apply Forall_cons; [vm_compute; intuition discriminate|]);
        apply Forall_nil).
  split; [exact Hrec|]. split; [exact Hall|].
  exact (proj1 X14_u16_encoder_result_and_size UTF_ENDIAN_LITTLE_ENDIAN _ [] Hrec Hall).
Defined.

(** X15.  The result of the UTF-16 encoder depends on the values of the
    units, not on the byte order they are stored in: a list of 16-bit values
    laid out big-endian and read big-endian gives the same result as the list
    laid out little-endian and read little-endian, surrogates in any
    arrangement included. *)
Theorem X15_u16_encoder_byte_order_independent :
  forall (vs : list Z) (target target' : u8string),
    Forall (fun v => 0 <= v < 2 ^ 16) vs ->
    to_u8string_u16 (map (u16_layout UTF_ENDIAN_BIG_ENDIAN) vs) UTF_ENDIAN_BIG_ENDIAN target
    = to_u8string_u16 (map (u16_layout UTF_ENDIAN_LITTLE_ENDIAN) vs)
        UTF_ENDIAN_LITTLE_ENDIAN target'.
Proof.
  intros vs target target' Hvs. unfold to_u8string_u16. symmetry.
  apply (convert_u16_layouts UTF_ENDIAN_LITTLE_ENDIAN (or_intror eq_refl) (length vs));
    [lia | exact Hvs].
Qed.

Lemma X15_u16_encoder_byte_order_independent_witness :
  Forall (fun v => 0 <= v < 2 ^ 16) [0x41; 0xD83D; 0xDE00; 0xDC00; 0xD800] /\
  to_u8string_u16 (map (u16_layout UTF_ENDIAN_BIG_ENDIAN) [0x41; 0xD83D; 0xDE00; 0xDC00; 0xD800])
    UTF_ENDIAN_BIG_ENDIAN []
  = to_u8string_u16
      (map (u16_layout UTF_ENDIAN_LITTLE_ENDIAN) [0x41; 0xD83D; 0xDE00; 0xDC00; 0xD800])
      UTF_ENDIAN_LITTLE_ENDIAN [0x99].
Proof.
  assert (Forall (fun v => 0 <= v < 2 ^ 16) [0x41; 0xD83D; 0xDE00; 0xDC00; 0xD800]) as Hvs
    by (repeat (apply Forall_cons; [vm_compute; intuition discriminate|]);
        apply Forall_nil).
  split; [exact Hvs|].
  exact (X15_u16_encoder_byte_order_independent _ [] [0x99] Hvs).
Defined.

(** X16.  The two encoders agree on Unicode text: for a list of scalar
    values, the UTF-16 encoder applied to their UTF-16 form (one unit, or a
    surrogate pair above [0xFFFF]) and the UTF-32 encoder applied to the
    values themselves both succeed and give the same bytes, the UTF-8 forms
    of the values one after the other. *)
Theorem X16_u16_and_u32_encoders_agree :
  forall (endian endian' : UTF_ENDIAN) (cps : list Z) (target target' : u8string),
    recognized endian -> recognized endian' -> Forall unicode_scalar cps ->
    to_u8string_u16 (map (u16_layout endian) (flat_map utf16_units cps)) endian target
    = Some (true, flat_map utf8_bytes cps) /\
    to_u8string_u32 (map (u32_layout endian') cps) endian' target'
    = (true, flat_map utf8_bytes cps).
Proof.
  intros endian endian' cps target target' Hrec Hrec' Hcps. split.
  - unfold to_u8string_u16. rewrite convert_u16_scalars by assumption. reflexivity.
  - unfold to_u8string_u32. rewrite convert_u32_of_values; [reflexivity | assumption |].
    revert Hcps. apply Forall_impl. apply unicode_scalar_range.
Qed.

Lemma X16_u16_and_u32_encoders_agree_witness :
  recognized UTF_ENDIAN_LITTLE_ENDIAN /\ recognized UTF_ENDIAN_BIG_ENDIAN /\
  Forall unicode_scalar [0x41; 0x20AC; 0x1F600; 0x10FFFF] /\
  to_u8string_u16
    (map (u16_layout UTF_ENDIAN_LITTLE_ENDIAN)
       (flat_map utf16_units [0x41; 0x20AC; 0x1F600; 0x10FFFF]))
    UTF_ENDIAN_LITTLE_ENDIAN []
  = Some (true, flat_map utf8_bytes [0x41; 0x20AC; 0x1F600; 0x10FFFF]) /\
  to_u8string_u32 (map (u32_layout UTF_ENDIAN_BIG_ENDIAN) [0x41; 0x20AC; 0x1F600; 0x10FFFF])
    UTF_ENDIAN_BIG_ENDIAN []
  = (true, flat_map utf8_bytes [0x41; 0x20AC; 0x1F600; 0x10FFFF]).
Proof.
  assert (recognized UTF_ENDIAN_LITTLE_ENDIAN) as Hrec by (right; reflexivity).
  assert (recognized UTF_ENDIAN_BIG_ENDIAN) as Hrec' by (left; reflexivity).
  assert (Forall unicode_scalar [0x41; 0x20AC; 0x1F600; 0x10FFFF]) as Hcps.
  { apply Forall_cons; [left; vm_compute; intuition discriminate|].
    apply Forall_cons; [left; vm_compute; intuition discriminate|].
    apply Forall_cons; [right; vm_compute; intuition discriminate|].
    apply Forall_cons; [right; vm_compute; intuition discriminate|].
    apply Forall_nil. }
  split; [exact Hrec|]. split; [exact Hrec'|]. split; [exact Hcps|].
  exact (X16_u16_and_u32_encoders_agree UTF_ENDIAN_LITTLE_ENDIAN UTF_ENDIAN_BIG_ENDIAN
           _ [] [] Hrec Hrec' Hcps).
Defined.

(** X17.  Transcoding UTF-16 to UTF-32 by way of UTF-8: for a list of
    scalar values, the UTF-16 encoder applied to their UTF-16 form succeeds,
    and decoding the bytes it returns succeeds and gives the values
    themselves, one unit each, in the byte order asked for. *)
Theorem X17_u16_to_u8_to_u32 :
  forall (char_is_signed : bool) (endian endian' : UTF_ENDIAN) (cps : list Z)
         (target : u8string) (target' : u32string),
    recognized endian -> Forall unicode_scalar cps ->
    exists u8str,
      to_u8string_u16 (map (u16_layout endian) (flat_map utf16_units cps)) endian target
      = Some (true, u8str) /\
      to_u32string char_is_signed u8str target' endian' false
      = (true, map (u32_layout endian') cps).
Proof.
  intros sg endian endian' cps target target' Hrec Hcps.
  exists (flat_map utf8_bytes cps). split.
  - unfold to_u8string_u16. rewrite convert_u16_scalars by assumption. reflexivity.
  - rewrite to_u32string_decoder, decoder_flat_map_utf8_bytes; [reflexivity|].
    revert Hcps. apply Forall_impl. intros cp Hcp.
    apply unicode_scalar_range in Hcp. lia.
Qed.

Lemma X17_u16_to_u8_to_u32_witness :
  recognized UTF_ENDIAN_BIG_ENDIAN /\ Forall unicode_scalar [0x48; 0xE9; 0x1F600] /\
  exists u8str,
    to_u8string_u16
      (map (u16_layout UTF_ENDIAN_BIG_ENDIAN) (flat_map utf16_units [0x48; 0xE9; 0x1F600]))
      UTF_ENDIAN_BIG_ENDIAN [] = Some (true, u8str) /\
    to_u32string true u8str [] UTF_ENDIAN_LITTLE_ENDIAN false
    = (true, map (u32_layout UTF_ENDIAN_LITTLE_ENDIAN) [0x48; 0xE9; 0x1F600]).
Proof.
  assert (recognized UTF_ENDIAN_BIG_ENDIAN) as Hrec by (left; reflexivity).
  assert (Forall unicode_scalar [0x48; 0xE9; 0x1F600]) as Hcps.
  { apply Forall_cons; [left; vm_compute; intuition discriminate|].
    apply Forall_cons; [left; vm_compute; intuition discriminate|].
    apply Forall_cons; [right; vm_compute; intuition discriminate|].
    apply Forall_nil. }
  split; [exact Hrec|]. split; [exact Hcps|].
  exact (X17_u16_to_u8_to_u32 true UTF_ENDIAN_BIG_ENDIAN UTF_ENDIAN_LITTLE_ENDIAN
           _ [] [] Hrec Hcps).
Defined.

(** X18.  The UTF-16 entry point that reads the byte order from the buffer
    always has a defined result, and it never strips a mark: whenever it
    succeeds the buffer has at least two units and the output begins with
    the bytes EF BB BF, the UTF-8 form of U+FEFF. *)
Theorem X18_u16_bom_entry_never_strips_mark :
  forall (u16str_with_bom : u16string) (target : u8string),
    Forall wf_utf16 u16str_with_bom ->
    exists flag out,
      to_u8string_u16_with_bom u16str_with_bom target = Some (flag, out) /\
      (flag = true ->
       (2 <= length u16str_with_bom)%nat /\
       exists out', out = 0xEF :: 0xBB :: 0xBF :: out').
Proof.
  intros s target Hall.
  destruct s as [|first after].
  { exists false, target. split; [reflexivity | discriminate]. }
  destruct after as [|second rest].
  { exists false, []. split; [reflexivity | discriminate]. }
  inversion Hall as [|? ? _ Hafter]; subst.
  inversion Hafter as [|? ? _ Hrest]; subst.
  unfold to_u8string_u16_with_bom, u16string_at. cbn [nth length].
  destruct second as [a b]. unfold match_u16_bom. cbn [v16_0 v16_1 UTF_ENDIAN_eqb].
  destruct ((a =? 0xfe) && (b =? 0xff)) eqn:Ebe.
  { apply andb_true_iff in Ebe. rewrite !Z.eqb_eq in Ebe. destruct Ebe as [-> ->].
    destruct (convert_u16_target UTF_ENDIAN_BIG_ENDIAN rest (or_introl eq_refl) Hrest)
      as (flag & out & Htarget).
    exists flag, (0xEF :: 0xBB :: 0xBF :: out). split.
    - rewrite convert_u16_plain;
        [| left; reflexivity | vm_compute; intuition discriminate
         | vm_compute; intuition discriminate].
      rewrite Htarget. reflexivity.
    - intros _. split; [lia | exists out; reflexivity]. }
  destruct ((a =? 0xff) && (b =? 0xfe)) eqn:Ele.
  { apply andb_true_iff in Ele. rewrite !Z.eqb_eq in Ele. destruct Ele as [-> ->].
    destruct (convert_u16_target UTF_ENDIAN_LITTLE_ENDIAN rest (or_intror eq_refl) Hrest)
      as (flag & out & Htarget).
    exists flag, (0xEF :: 0xBB :: 0xBF :: out). split.
    - rewrite convert_u16_plain;
        [| right; reflexivity | vm_compute; intuition discriminate
         | vm_compute; intuition discriminate].
      rewrite Htarget. reflexivity.
    - intros _. split; [lia | exists out; reflexivity]. }
  exists false, []. split; [reflexivity | discriminate].
Qed.

Lemma X18_u16_bom_entry_never_strips_mark_witness :
  Forall wf_utf16 [mk_utf16 0xff 0xfe; mk_utf16 0xff 0xfe; mk_utf16 0x41 0x00] /\
  exists flag out,
    to_u8string_u16_with_bom [mk_utf16 0xff 0xfe; mk_utf16 0xff 0xfe; mk_utf16 0x41 0x00] []
    = Some (flag, out) /\
    (flag = true ->
     (2 <= length [mk_utf16 0xff 0xfe; mk_utf16 0xff 0xfe; mk_utf16 0x41 0x00])%nat /\
     exists out', out = 0xEF :: 0xBB :: 0xBF :: out').
Proof.
  assert (Forall wf_utf16 [mk_utf16 0xff 0xfe; mk_utf16 0xff 0xfe; mk_utf16 0x41 0x00])
    as Hall
    by (repeat (apply Forall_cons; [vm_compute; intuition discriminate|]);
        apply Forall_nil).
  split; [exact Hall|].
  exact (X18_u16_bom_entry_never_strips_mark _ [] Hall).
Defined.

(** X19.  Reading a code unit in a recognized byte order inverts laying a
    value out in that order, in both directions: the value read from the
    layout of a 32-bit (16-bit) value is that value, and every well-formed
    unit is the layout of the value read from it, which is a 32-bit (16-bit)
    value. *)
Theorem X19_byte_order_assembly_inverts_layout :
  forall endian : UTF_ENDIAN,
    recognized endian ->
    (forall x, 0 <= x < 2 ^ 32 ->
       get_u32_endian_value (u32_layout endian x) endian = Some x) /\
    (forall cur, wf_utf32 cur ->
       exists x, get_u32_endian_value cur endian = Some x /\ 0 <= x < 2 ^ 32 /\
                 u32_layout endian x = cur) /\
    (forall x, 0 <= x < 2 ^ 16 ->
       get_u16_endian_value (u16_layout endian x) endian = Some x) /\
    (forall src, wf_utf16 src ->
       exists x, get_u16_endian_value src endian = Some x /\ 0 <= x < 2 ^ 16 /\
                 u16_layout endian x = src).
Proof.
  intros endian Hrec. split; [| split; [| split]].
  - intros x Hx.
    rewrite get_u32_endian_value_spec by (assumption || apply wf_u32_layout).
    rewrite u32_value_layout by assumption. reflexivity.
  - intros cur Hcur. exists (u32_value endian cur).
    split; [apply get_u32_endian_value_spec; assumption|].
    split; [apply u32_value_bounds; assumption | apply u32_layout_value; assumption].
  - intros x Hx.
    rewrite get_u16_endian_value_spec by (assumption || apply wf_u16_layout).
    rewrite u16_value_layout by assumption. reflexivity.
  - intros src Hsrc. exists (u16_value endian src).
    split; [apply get_u16_endian_value_spec; assumption|].
    split; [apply u16_value_bounds; assumption | apply u16_layout_value; assumption].
Qed.

Lemma X19_byte_order_assembly_inverts_layout_witness :
  recognized UTF_ENDIAN_LITTLE_ENDIAN /\ 0 <= 0x0001F600 < 2 ^ 32 /\
  wf_utf16 (mk_utf16 0x3D 0xD8) /\
  get_u32_endian_value (u32_layout UTF_ENDIAN_LITTLE_ENDIAN 0x0001F600)
    UTF_ENDIAN_LITTLE_ENDIAN = Some 0x0001F600 /\
  exists x, get_u16_endian_value (mk_utf16 0x3D 0xD8) UTF_ENDIAN_LITTLE_ENDIAN = Some x /\
            0 <= x < 2 ^ 16 /\ u16_layout UTF_ENDIAN_LITTLE_ENDIAN x = mk_utf16 0x3D 0xD8.
Proof.
  assert (recognized UTF_ENDIAN_LITTLE_ENDIAN) as Hrec by (right; reflexivity).
  assert (0 <= 0x0001F600 < 2 ^ 32) as Hx by (vm_compute; intuition discriminate).
  assert (wf_utf16 (mk_utf16 0x3D 0xD8)) as Hsrc by (vm_compute; intuition discriminate).
  destruct (X19_byte_order_assembly_inverts_layout UTF_ENDIAN_LITTLE_ENDIAN Hrec)
    as (H32 & _ & _ & H16).
  split; [exact Hrec|]. split; [exact Hx|]. split; [exact Hsrc|].
  split; [exact (H32 _ Hx) | exact (H16 _ Hsrc)].
Defined.

(** ** Decoding and encoding again *)

Lemma utf8_bytes_payload_length c tail n :
  is_u8 c -> Forall is_u8 tail -> sequence_length c = Some n ->
  length tail = (n - 1)%nat ->
  (length (utf8_bytes (utf8_payload (c :: tail))) <= n)%nat.
Proof.
  intros Hc Htail Hn Hlen.
  rewrite sequence_length_ranges in Hn by assumption. unfold is_u8 in Hc.
  rewrite utf8_bytes_length.
  destruct (Z.ltb_spec c 0x80) as [H1|H1].
  { injection Hn as <-. destruct tail; [|discriminate]. cbn [utf8_payload].
    replace (c <? 2 ^ 7) with true by (symmetry; apply Z.ltb_lt; lia). lia. }
  destruct (Z.ltb_spec c 0xC0) as [H2|H2]; [discriminate|].
  destruct (Z.ltb_spec c 0xE0) as [H3|H3].
  { injection Hn as <-. destruct tail as [|c1 [|]]; try discriminate.
    assert (utf8_payload [c; c1] < 2 ^ 11) as Hp
      by (unfold utf8_payload; Z.div_mod_to_equations; lia).
    destruct (_ <? 2 ^ 7); [lia|].
    replace (_ <? 2 ^ 11) with true by (symmetry; apply Z.ltb_lt; exact Hp). lia. }
  destruct (Z.ltb_spec c 0xF0) as [H4|H4].
  { injection Hn as <-. destruct tail as [|c1 [|c2 [|]]]; try discriminate.
    assert (utf8_payload [c; c1; c2] < 2 ^ 16) as Hp
      by (unfold utf8_payload; Z.div_mod_to_equations; lia).
    destruct (_ <? 2 ^ 7); [lia|]. destruct (_ <? 2 ^ 11); [lia|].
    replace (_ <? 2 ^ 16) with true by (symmetry; apply Z.ltb_lt; exact Hp). lia. }
  injection Hn as <-.
  destruct (_ <? 2 ^ 7); [lia|]. destruct (_ <? 2 ^ 11); [lia|].
  destruct (_ <? 2 ^ 16); lia.
Qed.

Lemma decoder_reencode_length sg endian u8str :
  recognized endian -> Forall is_u8 u8str ->
  (length (flat_map (fun u => utf8_bytes (u32_value endian u))
             (snd (decoder_for sg endian u8str [])))
   <= length u8str)%nat.
Proof.
  intros Hrec Hall. pattern u8str. revert u8str Hall. apply decoder_induction.
  - rewrite decoder_nil. cbn. lia.
  - intros c r Hc Hr Hn. rewrite decoder_stray by assumption. cbn. lia.
  - intros c r n Hc Hr Hn Hlen. rewrite (decoder_short sg endian c r n) by assumption.
    cbn. lia.
  - intros c r n Hc Hr Hn Hlen IH.
    rewrite (decoder_step sg endian c r n) by assumption.
    destruct (Forall_firstn_skipn is_u8 (n - 1) r Hr) as [Hfirst Hskip].
    rewrite decoder_target by assumption.
    cbn [fst snd app flat_map]. rewrite length_app.
    pose proof (sequence_length_bounds c n Hn) as Hb.
    assert (length (firstn (n - 1) r) = (n - 1)%nat) as Hflen
      by (apply firstn_length_le; exact Hlen).
    rewrite u32_value_layout
      by (pose proof (utf8_payload_bounds c (firstn (n - 1) r) Hc Hfirst ltac:(lia)); lia).
    pose proof (utf8_bytes_payload_length c (firstn (n - 1) r) n Hc Hfirst Hn Hflen).
    rewrite length_skipn in IH. cbn [length]. lia.
Qed.

(** X20.  Decoding and encoding again gives the canonical form: when a byte
    string is decoded successfully and the units are encoded successfully in
    the same byte order, the bytes obtained are never more than the bytes
    decoded, and decoding them gives the same units again. *)
Theorem X20_u8_decode_then_encode_canonical :
  forall (char_is_signed : bool) (endian : UTF_ENDIAN) (u8str u8str' : u8string)
         (units target' : u32string) (target : u8string),
    recognized endian -> Forall is_u8 u8str ->
    to_u32string char_is_signed u8str target' endian false = (true, units) ->
    to_u8string_u32 units endian target = (true, u8str') ->
    (length u8str' <= length u8str)%nat /\
    to_u32string char_is_signed u8str' target' endian false = (true, units).
Proof.
  intros sg endian u8str u8str' units target' target Hrec Hall Hdec Henc.
  rewrite to_u32string_decoder in Hdec.
  assert (Forall wf_utf32 units) as Hwf.
  { destruct (decoder_output sg endian u8str Hrec Hall) as (Hunits & _).
    rewrite Hdec in Hunits. cbn [snd] in Hunits.
    revert Hunits. apply Forall_impl. intros u [Hu _]. exact Hu. }
  pose proof (decoder_reencode_length sg endian u8str Hrec Hall) as Hlen.
  rewrite Hdec in Hlen. cbn [snd] in Hlen.
  unfold to_u8string_u32 in Henc.
  pose proof (convert_u32_success _ _ _ _ Hrec Hwf Henc) as Hok.
  rewrite convert_u32_all in Henc by assumption. injection Henc as <-. cbn [app].
  split; [exact Hlen|].
  rewrite to_u32string_decoder, flat_map_utf8_values, decoder_flat_map_utf8_bytes.
  - cbn [app]. rewrite map_layout_value by assumption. reflexivity.
  - apply Forall_map. apply Forall_forall. intros u Hin.
    rewrite Forall_forall in Hwf, Hok.
    pose proof (u32_value_bounds endian u (Hwf u Hin)).
    specialize (Hok u Hin). cbn beta in Hok. lia.
Qed.

Lemma X20_u8_decode_then_encode_canonical_witness :
  recognized UTF_ENDIAN_BIG_ENDIAN /\ Forall is_u8 [0xC1; 0x81; 0xE0; 0x82; 0xAC] /\
  to_u32string true [0xC1; 0x81; 0xE0; 0x82; 0xAC] [] UTF_ENDIAN_BIG_ENDIAN false
  = (true, [mk_utf32 0 0 0 0x41; mk_utf32 0 0 0 0xAC]) /\
  to_u8string_u32 [mk_utf32 0 0 0 0x41; mk_utf32 0 0 0 0xAC] UTF_ENDIAN_BIG_ENDIAN []
  = (true, [0x41; 0xC2; 0xAC]) /\
  (3 <= 5)%nat /\
  to_u32string true [0x41; 0xC2; 0xAC] [] UTF_ENDIAN_BIG_ENDIAN false
  = (true, [mk_utf32 0 0 0 0x41; mk_utf32 0 0 0 0xAC]).
Proof.
  assert (recognized UTF_ENDIAN_BIG_ENDIAN) as Hrec by (left; reflexivity).
  assert (Forall is_u8 [0xC1; 0x81; 0xE0; 0x82; 0xAC]) as Hall
    by (repeat (apply Forall_cons; [vm_compute; intuition discriminate|]);
        apply Forall_nil).
  assert (to_u32string true [0xC1; 0x81; 0xE0; 0x82; 0xAC] [] UTF_ENDIAN_BIG_ENDIAN false
          = (true, [mk_utf32 0 0 0 0x41; mk_utf32 0 0 0 0xAC])) as Hdec by reflexivity.
  assert (to_u8string_u32 [mk_utf32 0 0 0 0x41; mk_utf32 0 0 0 0xAC] UTF_ENDIAN_BIG_ENDIAN []
          = (true, [0x41; 0xC2; 0xAC])) as Henc by reflexivity.
  split; [exact Hrec|]. split; [exact Hall|]. split; [exact Hdec|]. split; [exact Henc|].
  exact (X20_u8_decode_then_encode_canonical true UTF_ENDIAN_BIG_ENDIAN _ _ _ [] []
           Hrec Hall Hdec Henc).
Defined.

Lemma assembled_code_point_unicode high low :
  0xd800 <= high < 0xdc00 -> 0xdc00 <= low < 2 ^ 16 ->
  0x10000 <= assembled_code_point high low < 0x110000.
Proof.
  intros Hh Hl. unfold assembled_code_point.
  pose proof (lor_below ((high - 0xd800) * 2 ^ 10) (low - 0xdc00) 20) as Hb.
  lia.
Qed.

(** The output of the UTF-16 encoder is the UTF-8 form of a list of values
    below [0x110000]. *)
Lemma convert_u16_values endian u16str :
  recognized endian -> Forall wf_utf16 u16str ->
  exists flag vs,
    Forall (fun v => 0 <= v < 0x110000) vs /\
    forall target,
      convert_u16str_to_u8str_without_bom u16str endian target
      = Some (flag, target ++ flat_map utf8_bytes vs).
Proof.
  intros Hrec Hall. pattern u16str. revert u16str Hall.
  apply (convert_u16_induction endian).
  - exists true, []. split; [constructor|]. intros target. cbn. rewrite app_nil_r.
    reflexivity.
  - intros cur rest Hcur Hrest Hplain (flag & vs & Hvs & IH).
    exists flag, (u16_value endian cur :: vs). split.
    + constructor; [| exact Hvs]. pose proof (u16_value_bounds endian cur Hcur). lia.
    + intros target. rewrite convert_u16_plain by assumption.
      rewrite IH. cbn [flat_map]. rewrite app_assoc. reflexivity.
  - intros cur Hcur Hlead. exists false, []. split; [constructor|]. intros target.
    rewrite convert_u16_lone_lead by assumption. cbn. rewrite app_nil_r. reflexivity.
  - intros cur cur' rest Hcur Hcur' Hrest Hlead Hlow. exists false, [].
    split; [constructor|]. intros target.
    rewrite convert_u16_bad_pair by assumption. cbn. rewrite app_nil_r. reflexivity.
  - intros cur cur' rest Hcur Hcur' Hrest Hlead Hlow (flag & vs & Hvs & IH).
    exists flag,
      (assembled_code_point (u16_value endian cur) (u16_value endian cur') :: vs).
    split.
    + constructor; [| exact Hvs].
      pose proof (u16_value_bounds endian cur' Hcur').
      pose proof (assembled_code_point_unicode (u16_value endian cur)
                    (u16_value endian cur') Hlead ltac:(lia)).
      lia.
    + intros target. rewrite convert_u16_pair_step by assumption.
      rewrite IH. cbn [flat_map]. rewrite app_assoc. reflexivity.
Qed.

(** X21.  Whatever the UTF-16 encoder writes, after a complete or a
    partial conversion, the decoder accepts, and every unit it decodes from
    it has a value of at most [0x10FFFF]. *)
Theorem X21_u16_encoder_output_decodes_in_range :
  forall (char_is_signed : bool) (endian endian' : UTF_ENDIAN) (u16str : u16string)
         (target u8str : u8string) (target' : u32string) (flag : bool),
    recognized endian -> recognized endian' -> Forall wf_utf16 u16str ->
    to_u8string_u16 u16str endian target = Some (flag, u8str) ->
    exists units,
      to_u32string char_is_signed u8str target' endian' false = (true, units) /\
      Forall (fun u => wf_utf32 u /\ 0 <= u32_value endian' u <= 0x10FFFF) units.
Proof.
  intros sg endian endian' u16str target u8str target' flag Hrec Hrec' Hall Hrun.
  destruct (convert_u16_values endian u16str Hrec Hall) as (flag' & vs & Hvs & Hout).
  unfold to_u8string_u16 in Hrun. rewrite Hout in Hrun. cbn [app] in Hrun.
  injection Hrun as _ <-.
  exists (map (u32_layout endian') vs). split.
  - rewrite to_u32string_decoder, decoder_flat_map_utf8_bytes; [reflexivity|].
    revert Hvs. apply Forall_impl. intros v Hv. lia.
  - apply Forall_map. revert Hvs. apply Forall_impl. intros v Hv.
    split; [apply wf_u32_layout|]. rewrite u32_value_layout by lia. lia.
Qed.

Lemma X21_u16_encoder_output_decodes_in_range_witness :
  recognized UTF_ENDIAN_BIG_ENDIAN /\ recognized UTF_ENDIAN_LITTLE_ENDIAN /\
  Forall wf_utf16 [mk_utf16 0xDB 0xFF; mk_utf16 0xFF 0xFF; mk_utf16 0xD8 0x00] /\
  to_u8string_u16 [mk_utf16 0xDB 0xFF; mk_utf16 0xFF 0xFF; mk_utf16 0xD8 0x00]
    UTF_ENDIAN_BIG_ENDIAN [] = Some (false, [0xF4; 0x8F; 0xBF; 0xBF]) /\
  exists units,
    to_u32string true [0xF4; 0x8F; 0xBF; 0xBF] [] UTF_ENDIAN_LITTLE_ENDIAN false
    = (true, units) /\
    Forall (fun u => wf_utf32 u /\ 0 <= u32_value UTF_ENDIAN_LITTLE_ENDIAN u <= 0x10FFFF)
      units.
Proof.
  assert (recognized UTF_ENDIAN_BIG_ENDIAN) as Hrec by (left; reflexivity).
  assert (recognized UTF_ENDIAN_LITTLE_ENDIAN) as Hrec' by (right; reflexivity).
  assert (Forall wf_utf16 [mk_utf16 0xDB 0xFF; mk_utf16 0xFF 0xFF; mk_utf16 0xD8 0x00])
    as Hall
    by (repeat (apply Forall_cons; [vm_compute; intuition discriminate|]);
        apply Forall_nil).
  assert (to_u8string_u16 [mk_utf16 0xDB 0xFF; mk_utf16 0xFF 0xFF; mk_utf16 0xD8 0x00]
            UTF_ENDIAN_BIG_ENDIAN [] = Some (false, [0xF4; 0x8F; 0xBF; 0xBF])) as Hrun
    by reflexivity.
  split; [exact Hrec|]. split; [exact Hrec'|]. split; [exact Hall|]. split; [exact Hrun|].
  exact (X21_u16_encoder_output_decodes_in_range true UTF_ENDIAN_BIG_ENDIAN
           UTF_ENDIAN_LITTLE_ENDIAN _ [] _ [] false Hrec Hrec' Hall Hrun).
Defined.
